(** * PyBEL's graph: [BELGraph] and [left_full_merge]

    A shallow embedding of [src/pybel/graph.py].  [BELGraph] extends
    [networkx.MultiDiGraph] (networkx 1.x: [nodes_iter], [edges_iter],
    [self.node], [self.edge], [add_node(n, attr_dict, **attr)]); the
    inherited operations the module calls are embedded next to the
    module's own functions.

    Python objects are shared and mutated in place.  The attribute
    dictionaries of nodes and edges and the context dictionaries of
    warnings are therefore kept in a store, and a graph refers to them by
    location: [g.add_node(node, attr_dict=h.node[node])] makes [g] and [h]
    refer to one dictionary.  The dictionaries that make up the shape of
    one graph ([self.node], [self.succ] and the key dictionaries below it)
    belong to that graph alone and are part of its value. *)

From Stdlib Require Import Ascii.
From stdpp Require Import gmap strings list fin_maps fin_sets.

(** ** Python values and exceptions *)

(** The values found in attribute dictionaries and in graph metadata. *)
Inductive value :=
  | VNone
  | VInt (z : Z)
  | VStr (s : string)
  | VList (l : list string)
  | VDict (d : gmap string string).

Global Instance value_eq_dec : EqDecision value.
Proof. solve_decision. Defined.

Inductive exception :=
  | KeyError.

(** Is the exception a [LookupError]?  [KeyError] is a subclass of it. *)
Definition is_LookupError (e : exception) : bool :=
  match e with KeyError => true end.

Inductive result (A : Type) : Type :=
  | Ok (a : A)
  | Raise (e : exception).
Global Arguments Ok {A} a.
Global Arguments Raise {A} e.

Global Instance result_ret : MRet result := λ A a, Ok a.
Global Instance result_bind : MBind result := λ A B f m,
  match m with
  | Ok a => f a
  | Raise e => Raise e
  end.

(** [d[k]] on a dictionary: [KeyError] when [k] is absent. *)
Definition getitem `{Countable K} {V} (d : gmap K V) (k : K) : result V :=
  match d !! k with
  | Some v => Ok v
  | None => Raise KeyError
  end.

(** A [for] loop whose body may raise. *)
Fixpoint for_each {A S : Type} (body : A → S → result S) (xs : list A) (s : S)
    : result S :=
  match xs with
  | [] => Ok s
  | x :: xs => s' ← body x s; for_each body xs s'
  end.

(** ** The store of attribute dictionaries *)

Abbreviation attrs := (gmap string value).
Abbreviation loc := nat.
Abbreviation heap := (list (gmap string value)).

Definition deref (σ : heap) (l : loc) : attrs := default ∅ (σ !! l).

(** A new dictionary object with contents [d]. *)
Definition alloc (d : attrs) (σ : heap) : loc * heap := (length σ, σ ++ [d]).

(** [a.update(b)] for the dictionary at [a]: the entries of [b] win. *)
Definition dict_update (a : loc) (b : attrs) (σ : heap) : heap :=
  <[a := b ∪ deref σ a]> σ.

(** Modelled from the spec: [pybel.utils.subdict_matches] is imported by
    [graph.py] but its source is not available.  The spec describes it as
    the sub-dictionary match: every key of the query is present in the
    target with an equal value; other entries of the target are ignored. *)
Definition subdict_matches (target query : attrs) : bool :=
  forallb (λ kv, bool_decide (target !! kv.1 = Some kv.2)) (map_to_list query).

Section graph.
Context {N : Type} `{Countable N}.
(** The type of the exception objects kept in the warning log. *)
Context {Exc : Type}.

(** ** Values of [pybel.constants] and [pybel.utils]

    [graph.py] does [from .constants import *]; the module is not part of
    the sources at hand, so the keys it defines are parameters. *)
Variables FUNCTION NAMESPACE NAME LABEL DESCRIPTION : string.
Variables RELATION CITATION EVIDENCE ANNOTATIONS : string.
Variables GRAPH_METADATA GRAPH_PYBEL_VERSION : string.
Variables GRAPH_NAMESPACE_URL GRAPH_NAMESPACE_OWL GRAPH_NAMESPACE_PATTERN : string.
Variables GRAPH_ANNOTATION_URL GRAPH_ANNOTATION_OWL GRAPH_ANNOTATION_PATTERN : string.
Variable GRAPH_ANNOTATION_LIST : string.
(** The table from unqualified relations to their reserved edge keys. *)
Variable unqualified_edge_code : gmap string Z.
(** The string that [pybel.utils.get_version()] returns. *)
Variable get_version : string.
(** The Python tuple [(function, namespace, name)] as a node. *)
Variable tuple3 : string → string → string → N.

(** ** The graph object

    [node] is [self.node], [adj] is [self.succ] (networkx sets
    [self.adj = self.succ] and [self.edge = self.adj]); [graph] is the
    dictionary of graph attributes.  [self.pred] holds the same key
    dictionaries as [self.succ] indexed by target first; nothing in
    [graph.py] reads it and it is left out. *)
Record BELGraph := mkBELGraph {
  graph : gmap string value;
  node : gmap N loc;
  adj : gmap N (gmap N (gmap Z loc));
  warnings : list (Z * string * Exc * loc);
  has_singleton_terms : bool;
}.

Definition set_node (f : gmap N loc → gmap N loc) (g : BELGraph) : BELGraph :=
  mkBELGraph (graph g) (f (node g)) (adj g) (warnings g) (has_singleton_terms g).
Definition set_adj
    (f : gmap N (gmap N (gmap Z loc)) → gmap N (gmap N (gmap Z loc)))
    (g : BELGraph) : BELGraph :=
  mkBELGraph (graph g) (node g) (f (adj g)) (warnings g) (has_singleton_terms g).
Definition set_graph (f : gmap string value → gmap string value) (g : BELGraph)
    : BELGraph :=
  mkBELGraph (f (graph g)) (node g) (adj g) (warnings g) (has_singleton_terms g).
Definition set_warnings
    (f : list (Z * string * Exc * loc) → list (Z * string * Exc * loc))
    (g : BELGraph) : BELGraph :=
  mkBELGraph (graph g) (node g) (adj g) (f (warnings g)) (has_singleton_terms g).

(** The edge [(u, v, key)] of [g], as [self.edge[u][v][key]] finds it. *)
Definition edge (g : BELGraph) (u v : N) (key : Z) : option loc :=
  nbrs ← adj g !! u; keydict ← nbrs !! v; keydict !! key.

(** ** Inherited from [networkx.MultiDiGraph] *)

(** [n in self] *)
Definition contains (g : BELGraph) (n : N) : bool :=
  bool_decide (n ∈ dom (node g)).

(** The first lines of [add_node] and [add_edge]:
    [attr_dict = attr] when no [attr_dict] is given, else
    [attr_dict.update(attr)]. *)
Definition setup_attr_dict (attr_dict : option loc) (attr : attrs) (σ : heap)
    : loc * heap :=
  match attr_dict with
  | None => alloc attr σ
  | Some a => (a, dict_update a attr σ)
  end.

(** [self.add_node(n, attr_dict, **attr)] *)
Definition add_node (n : N) (attr_dict : option loc) (attr : attrs)
    (s : heap * BELGraph) : result (heap * BELGraph) :=
  let '(σ, g) := s in
  let '(a, σ) := setup_attr_dict attr_dict attr σ in
  match adj g !! n with
  | None =>
      Ok (σ, set_node <[n := a]> (set_adj <[n := ∅]> g))
  | Some _ =>
      (* the node exists: its attributes are updated *)
      d ← getitem (node g) n;
      Ok (dict_update d (deref σ a) σ, g)
  end.

(** The "add nodes" step of [add_edge]: a missing endpoint becomes a node
    with a new empty attribute dictionary. *)
Definition ensure_node (n : N) (s : heap * BELGraph) : heap * BELGraph :=
  let '(σ, g) := s in
  match adj g !! n with
  | None =>
      let '(d, σ) := alloc ∅ σ in
      (σ, set_node <[n := d]> (set_adj <[n := ∅]> g))
  | Some _ => s
  end.

(** The loop [key = len(keydict); while key in keydict: key += 1].  It
    leaves after at most [len(keydict)] increments, which is the fuel. *)
Fixpoint key_search (keydict : gmap Z loc) (fuel : nat) (key : Z) : Z :=
  match fuel with
  | O => key
  | S fuel =>
      match keydict !! key with
      | Some _ => key_search keydict fuel (key + 1)%Z
      | None => key
      end
  end.

Definition new_key (keydict : gmap Z loc) : Z :=
  key_search keydict (size keydict) (Z.of_nat (size keydict)).

(** [self.add_edge(u, v, key, attr_dict, **attr)] *)
Definition add_edge (u v : N) (key : option Z) (attr_dict : option loc)
    (attr : attrs) (s : heap * BELGraph) : heap * BELGraph :=
  let '(σ, g) := s in
  let '(a, σ) := setup_attr_dict attr_dict attr σ in
  let '(σ, g) := ensure_node v (ensure_node u (σ, g)) in
  let nbrs := default ∅ (adj g !! u) in
  match nbrs !! v with
  | Some keydict =>
      let key := match key with None => new_key keydict | Some k => k end in
      let '(datadict, σ) :=
        match keydict !! key with
        | Some d => (d, σ)
        | None => alloc ∅ σ
        end in
      let σ := dict_update datadict (deref σ a) σ in
      (σ, set_adj <[u := <[v := <[key := datadict]> keydict]> nbrs]> g)
  | None =>
      let key := default 0%Z key in
      let '(datadict, σ) := alloc ∅ σ in
      let σ := dict_update datadict (deref σ a) σ in
      (σ, set_adj <[u := <[v := {[key := datadict]}]> nbrs]> g)
  end.

(** [self.has_edge(u, v, key)]: a [KeyError] inside counts as [False]. *)
Definition has_edge (g : BELGraph) (u v : N) (key : option Z) : bool :=
  match adj g !! u with
  | None => false
  | Some nbrs =>
      match key with
      | None => bool_decide (v ∈ dom nbrs)
      | Some k =>
          match nbrs !! v with
          | None => false
          | Some keydict => bool_decide (k ∈ dom keydict)
          end
      end
  end.

(** [super().nodes_iter(data=True)]: the items of [self.node]. *)
Definition nx_nodes_iter (g : BELGraph) : list (N * loc) :=
  map_to_list (node g).

(** [super().edges_iter(nbunch, data=True, keys=True)].  [nbunch] is
    [None] for all nodes, or a sequence of nodes of which those in the
    graph are taken. *)
Definition nx_edges_iter (g : BELGraph) (nbunch : option (list N))
    : list (N * N * Z * loc) :=
  let nodes_nbrs :=
    match nbunch with
    | None => map_to_list (adj g)
    | Some ns => omap (λ n, pair n <$> adj g !! n) ns
    end in
  '(n, nbrs) ← nodes_nbrs;
  '(nbr, keydict) ← map_to_list nbrs;
  '(key, ddict) ← map_to_list keydict;
  [(n, nbr, key, ddict)].

(** ** [BELGraph] *)

(** [if key not in self.graph: self.graph[key] = v] *)
Definition init_key (key : string) (v : value) (g : BELGraph) : BELGraph :=
  match graph g !! key with
  | None => set_graph <[key := v]> g
  | Some _ => g
  end.

(** [BELGraph(data=None, **kwargs)].  The inherited constructor starts
    from empty dictionaries and does [self.graph.update(kwargs)]. *)
Definition BELGraph_init (kwargs : gmap string value) : BELGraph :=
  let self := mkBELGraph (kwargs ∪ ∅) ∅ ∅ [] false in
  let self := set_warnings (λ _, []) self in
  let self := init_key GRAPH_METADATA (VDict ∅) self in
  let self := init_key GRAPH_PYBEL_VERSION (VStr get_version) self in
  let self := init_key GRAPH_NAMESPACE_URL (VDict ∅) self in
  let self := init_key GRAPH_NAMESPACE_OWL (VDict ∅) self in
  let self := init_key GRAPH_NAMESPACE_PATTERN (VDict ∅) self in
  let self := init_key GRAPH_ANNOTATION_URL (VDict ∅) self in
  let self := init_key GRAPH_ANNOTATION_OWL (VDict ∅) self in
  let self := init_key GRAPH_ANNOTATION_PATTERN (VDict ∅) self in
  let self := init_key GRAPH_ANNOTATION_LIST (VDict ∅) self in
  mkBELGraph (graph self) (node self) (adj self) (warnings self) false.

(** The properties [document], [namespace_url], ... read [self.graph]. *)
Definition document (g : BELGraph) : result value :=
  getitem (graph g) GRAPH_METADATA.
Definition namespace_url (g : BELGraph) : result value :=
  getitem (graph g) GRAPH_NAMESPACE_URL.
Definition namespace_owl (g : BELGraph) : result value :=
  getitem (graph g) GRAPH_NAMESPACE_OWL.
Definition namespace_pattern (g : BELGraph) : result value :=
  getitem (graph g) GRAPH_NAMESPACE_PATTERN.
Definition annotation_url (g : BELGraph) : result value :=
  getitem (graph g) GRAPH_ANNOTATION_URL.
Definition annotation_owl (g : BELGraph) : result value :=
  getitem (graph g) GRAPH_ANNOTATION_OWL.
Definition annotation_pattern (g : BELGraph) : result value :=
  getitem (graph g) GRAPH_ANNOTATION_PATTERN.
Definition annotation_list (g : BELGraph) : result value :=
  getitem (graph g) GRAPH_ANNOTATION_LIST.
Definition pybel_version (g : BELGraph) : result value :=
  getitem (graph g) GRAPH_PYBEL_VERSION.

(** [self.add_warning(line_number, line, exception, context=None)] *)
Definition add_warning (line_number : Z) (line : string) (exception : Exc)
    (context : option loc) (s : heap * BELGraph) : heap * BELGraph :=
  let '(σ, g) := s in
  let '(c, σ) :=
    match context with
    | None => alloc ∅ σ
    | Some c => (c, σ)
    end in
  (σ, set_warnings (λ w, w ++ [(line_number, line, exception, c)]) g).

(** [self.add_unqualified_edge(u, v, relation)] *)
Definition add_unqualified_edge (u v : N) (relation : string)
    (s : heap * BELGraph) : result (heap * BELGraph) :=
  key ← getitem unqualified_edge_code relation;
  if negb (has_edge s.2 u v (Some key)) then
    Ok (add_edge u v (Some key) None
          (<[ANNOTATIONS := VDict ∅]> (<[RELATION := VStr relation]> ∅)) s)
  else Ok s.

(** What [edges_iter] yields for the flags [data] and [keys]. *)
Definition edge_item (data keys : bool) : Type :=
  if keys then (if data then N * N * Z * loc else N * N * Z)
  else (if data then N * N * loc else N * N).

Definition edge_yield (data keys : bool) (e : N * N * Z * loc)
    : edge_item data keys :=
  let '(u, v, k, d) := e in
  match keys, data return edge_item data keys with
  | true, true => (u, v, k, d)
  | false, true => (u, v, d)
  | true, false => (u, v, k)
  | false, false => (u, v)
  end.

(** [self.edges_iter(nbunch, data, keys, **kwargs)] *)
Definition edges_iter (σ : heap) (g : BELGraph) (nbunch : option (list N))
    (data keys : bool) (kwargs : attrs) : list (edge_item data keys) :=
  omap (λ e : N * N * Z * loc,
          if negb (subdict_matches (deref σ e.2) kwargs) then None
          else Some (edge_yield data keys e))
       (nx_edges_iter g nbunch).

(** What [nodes_iter] yields for the flag [data]. *)
Definition node_item (data : bool) : Type :=
  if data then N * loc else N.

Definition node_yield (data : bool) (nd : N * loc) : node_item data :=
  match data return node_item data with
  | true => nd
  | false => nd.1
  end.

(** [self.nodes_iter(data, **kwargs)] *)
Definition nodes_iter (σ : heap) (g : BELGraph) (data : bool) (kwargs : attrs)
    : list (node_item data) :=
  omap (λ nd : N * loc,
          if negb (subdict_matches (deref σ nd.2) kwargs) then None
          else Some (node_yield data nd))
       (nx_nodes_iter g).

(** [self.add_simple_node(function, namespace, name)] *)
Definition add_simple_node (function namespace name : string)
    (s : heap * BELGraph) : result (heap * BELGraph) :=
  let n := tuple3 function namespace name in
  if negb (contains s.2 n) then
    add_node n None
      (<[NAME := VStr name]>
         (<[NAMESPACE := VStr namespace]> (<[FUNCTION := VStr function]> ∅))) s
  else Ok s.

(** [self.edge[u][v][key]] *)
Definition edge_data (g : BELGraph) (u v : N) (key : Z) : result loc :=
  nbrs ← getitem (adj g) u; keydict ← getitem nbrs v; getitem keydict key.

Definition get_edge_citation (σ : heap) (g : BELGraph) (u v : N) (key : Z)
    : result value :=
  d ← edge_data g u v key; getitem (deref σ d) CITATION.

Definition get_edge_evidence (σ : heap) (g : BELGraph) (u v : N) (key : Z)
    : result value :=
  d ← edge_data g u v key; getitem (deref σ d) EVIDENCE.

Definition get_edge_annotations (σ : heap) (g : BELGraph) (u v : N) (key : Z)
    : result value :=
  d ← edge_data g u v key; getitem (deref σ d) ANNOTATIONS.

(** [d.get(k)]: [None] when [k] is absent. *)
Definition dict_get (d : attrs) (k : string) : value := default VNone (d !! k).

Definition get_node_name (σ : heap) (g : BELGraph) (n : N) : result value :=
  d ← getitem (node g) n; Ok (dict_get (deref σ d) NAME).

Definition get_node_label (σ : heap) (g : BELGraph) (n : N) : result value :=
  d ← getitem (node g) n; Ok (dict_get (deref σ d) LABEL).

Definition set_node_label (n : N) (label : value) (s : heap * BELGraph)
    : result (heap * BELGraph) :=
  d ← getitem (node s.2) n;
  Ok (<[d := <[LABEL := label]> (deref s.1 d)]> s.1, s.2).

Definition get_node_description (σ : heap) (g : BELGraph) (n : N)
    : result value :=
  d ← getitem (node g) n; Ok (dict_get (deref σ d) DESCRIPTION).

Definition set_node_description (n : N) (description : value)
    (s : heap * BELGraph) : result (heap * BELGraph) :=
  d ← getitem (node s.2) n;
  Ok (<[d := <[DESCRIPTION := description]> (deref s.1 d)]> s.1, s.2).

(** ** [left_full_merge] *)

(** The body of the first loop, for one node of [h]. *)
Definition merge_node (h : BELGraph) (n : N) (s : heap * BELGraph)
    : result (heap * BELGraph) :=
  if negb (contains s.2 n) then
    a ← getitem (node h) n;
    add_node n (Some a) ∅ s
  else Ok s.

(** The body of the second loop, for one edge [(u, v, k, d)] of [h]. *)
Definition merge_edge (e : N * N * Z * loc) (s : heap * BELGraph)
    : result (heap * BELGraph) :=
  let '(u, v, k, d) := e in
  nbrs ← getitem (adj s.2) u;
  if bool_decide (k < 0)%Z then
    (* unqualified edge that's not in G yet *)
    match nbrs !! v with
    | None => Ok (add_edge u v (Some k) (Some d) ∅ s)
    | Some keydict =>
        if bool_decide (k ∉ dom keydict)
        then Ok (add_edge u v (Some k) (Some d) ∅ s)
        else Ok s
    end
  else
    match nbrs !! v with
    | None => Ok (add_edge u v None (Some d) ∅ s)
    | Some keydict =>
        if existsb (λ kd : Z * loc,
                      bool_decide (0 ≤ kd.1)%Z
                      && bool_decide (deref s.1 d = deref s.1 kd.2))
                   (map_to_list keydict)
        then Ok s
        else Ok (add_edge u v None (Some d) ∅ s)
    end.

(** [left_full_merge(g, h)]: the store and [g] after the call.  The two
    generators read [h] while [g] is written; the model lists [h] first,
    which is the same as long as the call does not write to [h]. *)
Definition left_full_merge (σ : heap) (g h : BELGraph)
    : result (heap * BELGraph) :=
  s ← for_each (merge_node h) (nodes_iter σ h false ∅) (σ, g);
  for_each merge_edge (edges_iter σ h None true true ∅) s.

(** ** Well-formed states

    What networkx and the Python heap guarantee of every graph: a node has
    an entry in [self.node] exactly when it has one in [self.succ], and
    every dictionary a graph refers to exists. *)

Definition consistent (g : BELGraph) : Prop :=
  dom (node g) = dom (adj g).

Definition closed (σ : heap) (g : BELGraph) : Prop :=
  (∀ n l, node g !! n = Some l → l < length σ) ∧
  (∀ u v k l, edge g u v k = Some l → l < length σ).

Definition wf (σ : heap) (g : BELGraph) : bool :=
  bool_decide (dom (node g) = dom (adj g))
  && bool_decide (map_Forall (λ _ (l : loc), l < length σ) (node g))
  && bool_decide
       (map_Forall (λ _ (nbrs : gmap N (gmap Z loc)),
          map_Forall (λ _ (keydict : gmap Z loc),
            map_Forall (λ _ (l : loc), l < length σ) keydict) nbrs) (adj g)).

(** [s'] keeps what [s] has: every old dictionary with its contents, every
    node with its attribute dictionary, every edge with its key and data
    dictionary, and the graph attributes and the warning log as they are. *)
Definition extends (s s' : heap * BELGraph) : Prop :=
  s.1 `prefix_of` s'.1 ∧
  node s.2 ⊆ node s'.2 ∧
  (∀ u v k l, edge s.2 u v k = Some l → edge s'.2 u v k = Some l) ∧
  graph s'.2 = graph s.2 ∧
  warnings s'.2 = warnings s.2 ∧
  has_singleton_terms s'.2 = has_singleton_terms s.2.

(** [adj] with the edge [(u, v, key)] set to [d]. *)
Definition insert_edge (u v : N) (key : Z) (d : loc)
    (a : gmap N (gmap N (gmap Z loc))) : gmap N (gmap N (gmap Z loc)) :=
  let nbrs := default ∅ (a !! u) in
  <[u := <[v := <[key := d]> (default ∅ (nbrs !! v))]> nbrs]> a.

(** [n] calls of [body] in a row. *)
Fixpoint repeat_call {S : Type} (body : S → result S) (n : nat) (s : S)
    : result S :=
  match n with
  | O => Ok s
  | S n => s' ← body s; repeat_call body n s'
  end.

(** The edges between [u] and [v] with the key [key] that an iteration
    over all edges of [g] comes across. *)
Definition edges_keyed (g : BELGraph) (u v : N) (key : Z)
    : list (N * N * Z * loc) :=
  filter (λ e, e.1 = (u, v, key)) (nx_edges_iter g None).

(** ** What [left_full_merge] keeps true while it runs

    [σ0] and [g0] are the store and the receiver at the start of the call,
    [h] is the donor. *)

(** An edge of the receiver with a negative key is one it had at the
    start, or the copy of the donor's edge with that key. *)
Definition unqualified_origin (σ0 : heap) (g0 h : BELGraph)
    (s : heap * BELGraph) : Prop :=
  ∀ u v k l, edge s.2 u v k = Some l → (k < 0)%Z →
    edge g0 u v k = Some l ∨
    ∃ d, edge h u v k = Some d ∧ deref s.1 l = deref σ0 d.

Definition merge_inv (σ0 : heap) (g0 h : BELGraph) (s : heap * BELGraph)
    : Prop :=
  consistent s.2 ∧ closed s.1 s.2 ∧ σ0 `prefix_of` s.1 ∧
  unqualified_origin σ0 g0 h s.

(** What the iteration for the donor's edge [e] leaves in the receiver. *)
Definition edge_merged (σ0 : heap) (e : N * N * Z * loc)
    (s : heap * BELGraph) : Prop :=
  let '(u, v, k, d) := e in
  ∃ k' l', edge s.2 u v k' = Some l' ∧ l' < length s.1 ∧
    if bool_decide (k < 0)%Z then k' = k
    else (0 ≤ k')%Z ∧ deref s.1 l' = deref σ0 d.

(** Where the edges and the nodes of the receiver come from: an edge is
    one the receiver had at the start, or it has a data dictionary made
    during the call that holds the attributes of an edge of the donor
    between the same nodes; a node is one the receiver had at the start,
    or a node of the donor with the donor's own attribute dictionary, or
    the target of an edge of the donor that is no node of the donor. *)
Definition edge_origin (σ0 : heap) (g0 h : BELGraph) (s : heap * BELGraph)
    : Prop :=
  ∀ u v k l, edge s.2 u v k = Some l →
    edge g0 u v k = Some l ∨
    (length σ0 ≤ l ∧
     ∃ k0 d, edge h u v k0 = Some d ∧ deref s.1 l = deref σ0 d ∧
       if bool_decide (k0 < 0)%Z then k = k0 else (0 ≤ k)%Z).

Definition node_origin (σ0 : heap) (g0 h : BELGraph) (s : heap * BELGraph)
    : Prop :=
  ∀ n l, node s.2 !! n = Some l →
    node g0 !! n = Some l ∨
    (node g0 !! n = None ∧
     (node h !! n = Some l ∨
      (node h !! n = None ∧ length σ0 ≤ l ∧ deref s.1 l = ∅ ∧
       ∃ u k d, edge h u n k = Some d))).

Definition origin_inv (σ0 : heap) (g0 h : BELGraph) (s : heap * BELGraph)
    : Prop :=
  merge_inv σ0 g0 h s ∧ node g0 ⊆ node s.2 ∧
  edge_origin σ0 g0 h s ∧ node_origin σ0 g0 h s.

(** Two qualified edges of the receiver between the same nodes have equal
    attributes only if the receiver had both at the start. *)
Definition no_new_duplicates (g0 : BELGraph) (s : heap * BELGraph) : Prop :=
  ∀ u v k1 l1 k2 l2,
    edge s.2 u v k1 = Some l1 → edge s.2 u v k2 = Some l2 →
    (0 ≤ k1)%Z → (0 ≤ k2)%Z → k1 ≠ k2 →
    deref s.1 l1 = deref s.1 l2 →
    edge g0 u v k1 = Some l1 ∧ edge g0 u v k2 = Some l2.

(** Every edge of [g] ends in a node of [g]; [add_edge] sees to that. *)
Definition targets_are_nodes (g : BELGraph) : bool :=
  forallb (λ e : N * N * Z * loc, bool_decide (e.1.1.2 ∈ dom (node g)))
    (nx_edges_iter g None).

(** [h] has no node and no edge that [g] lacks: its nodes are nodes of
    [g], and its edges are edges of [g] with the same key and the same
    data dictionary. *)
Definition subgraph_of (h g : BELGraph) : bool :=
  bool_decide (dom (node h) ⊆ dom (node g))
  && forallb (λ e : N * N * Z * loc,
                bool_decide (edge g e.1.1.1 e.1.1.2 e.1.2 = Some e.2))
       (nx_edges_iter h None).

End graph.

(** ** The citation date sanitizer *)

Definition is_digit (c : ascii) : bool :=
  (48 <=? nat_of_ascii c) && (nat_of_ascii c <=? 57).

Definition digit_char (n : nat) : ascii := ascii_of_nat (48 + n).

Fixpoint number_from (acc : nat) (s : string) : option nat :=
  match s with
  | EmptyString => Some acc
  | String c s =>
      if is_digit c then number_from (10 * acc + (nat_of_ascii c - 48)) s
      else None
  end.

(** A non-empty string of decimal digits, as a number. *)
Definition parse_number (s : string) : option nat :=
  match s with
  | EmptyString => None
  | _ => number_from 0 s
  end.

(** The pieces of [s] between the occurrences of [sep]. *)
Fixpoint split_on (sep : ascii) (s : string) : list string :=
  match s with
  | EmptyString => [EmptyString]
  | String c s =>
      if Ascii.eqb c sep then EmptyString :: split_on sep s
      else
        match split_on sep s with
        | t :: ts => String c t :: ts
        | [] => [String c EmptyString]
        end
  end.

(** [YYYY] *)
Definition parse_year (s : string) : option nat :=
  if String.length s =? 4 then parse_number s else None.

(** [DD]: one or two digits. *)
Definition parse_day (s : string) : option nat :=
  if (String.length s =? 1) || (String.length s =? 2) then parse_number s
  else None.

Definition month_names : list string :=
  ["Jan"; "Feb"; "Mar"; "Apr"; "May"; "Jun";
   "Jul"; "Aug"; "Sep"; "Oct"; "Nov"; "Dec"]%string.

Fixpoint index_of (s : string) (names : list string) (i : nat) : option nat :=
  match names with
  | [] => None
  | n :: names => if String.eqb s n then Some i else index_of s names (S i)
  end.

(** [Mon]: the number of the month with that three-letter name. *)
Definition parse_month (s : string) : option nat := index_of s month_names 1.

(** [Season]: the month that stands for the season.  The spec fixes March
    for spring; the other seasons are given the month they begin in. *)
Definition parse_season (s : string) : option nat :=
  if String.eqb s "Spring" then Some 3
  else if String.eqb s "Summer" then Some 6
  else if String.eqb s "Fall" then Some 9
  else if String.eqb s "Autumn" then Some 9
  else if String.eqb s "Winter" then Some 12
  else None.

Definition leap_year (y : nat) : bool :=
  ((y mod 4 =? 0) && negb (y mod 100 =? 0)) || (y mod 400 =? 0).

Definition days_in_month (y m : nat) : nat :=
  match m with
  | 1 | 3 | 5 | 7 | 8 | 10 | 12 => 31
  | 4 | 6 | 9 | 11 => 30
  | 2 => if leap_year y then 29 else 28
  | _ => 0
  end.

Definition valid_date (y m d : nat) : bool :=
  (y <? 100 * 100) && (1 <=? m) && (m <=? 12) && (1 <=? d)
  && (d <=? days_in_month y m).

(** The year, month and day that the text stands for, by the seven forms
    of the spec. *)
Definition parse_date (s : string) : option (nat * nat * nat) :=
  match split_on " " s with
  | [yyyy] =>
      (* YYYY *)
      y ← parse_year yyyy; Some (y, 1, 1)
  | [yyyy; t] =>
      y ← parse_year yyyy;
      match parse_month t, parse_season t with
      | Some m, _ => Some (y, m, 1)            (* YYYY Mon *)
      | None, Some m => Some (y, m, 1)         (* YYYY Season *)
      | None, None =>
          match split_on "-" t with
          | [mon1; mon2] =>
              (* YYYY Mon-Mon *)
              m ← parse_month mon1; _ ← parse_month mon2; Some (y, m, 1)
          | _ => None
          end
      end
  | [yyyy; mon; t] =>
      y ← parse_year yyyy; m ← parse_month mon;
      match split_on "-" t with
      | [dd] =>
          (* YYYY Mon DD *)
          d ← parse_day dd; Some (y, m, d)
      | [dd1; dd2] =>
          (* YYYY Mon DD-DD *)
          d ← parse_day dd1; _ ← parse_day dd2; Some (y, m, d)
      | _ => None
      end
  | [yyyy; mon; t; dd2] =>
      y ← parse_year yyyy; m ← parse_month mon;
      match split_on "-" t with
      | [dd1; mon2] =>
          (* YYYY Mon DD-Mon DD *)
          d ← parse_day dd1; _ ← parse_month mon2; _ ← parse_day dd2;
          Some (y, m, d)
      | _ => None
      end
  | _ => None
  end.

(** The last two, and the last four, decimal digits of [n]. *)
Definition digits2 (n : nat) : list ascii :=
  [digit_char (n / 10 mod 10); digit_char (n mod 10)].

Definition digits4 (n : nat) : list ascii :=
  [digit_char (n / 1000 mod 10); digit_char (n / 100 mod 10)] ++ digits2 n.

(** [YYYY-MM-DD] *)
Definition format_date (y m d : nat) : string :=
  String.string_of_list_ascii
    (digits4 y ++ ["-"%char] ++ digits2 m ++ ["-"%char] ++ digits2 d).

(** Modelled from the spec: [pybel.manager.citation_utils.sanitize_date]
    is not among the sources; only its tests are.  The spec gives seven
    input forms and the date each stands for, and the failure sentinel
    ([None]) for every other input. *)
Definition sanitize_date (publication_date : string) : option string :=
  '(y, m, d) ← parse_date publication_date;
  if valid_date y m d then Some (format_date y m d) else None.

(** The shape [dddd-dd-dd]. *)
Definition is_iso_date (s : string) : bool :=
  match String.list_ascii_of_string s with
  | [y1; y2; y3; y4; s1; m1; m2; s2; d1; d2] =>
      forallb is_digit [y1; y2; y3; y4; m1; m2; d1; d2]
      && Ascii.eqb s1 "-" && Ascii.eqb s2 "-"
  | _ => false
  end.

(** ** Example graphs *)

Abbreviation ex_node := (string * string * string)%type.
Abbreviation ex_graph := (BELGraph (N:=ex_node) (Exc:=string)).

Definition ex_tuple3 (function namespace name : string) : ex_node :=
  (function, namespace, name).

Definition ex_code : gmap string Z :=
  <["hasVariant" := (-2)%Z]> (<["hasComponent" := (-1)%Z]> ∅).

Definition ex_u : ex_node := ("Protein", "HGNC", "AKT1").
Definition ex_v : ex_node := ("Protein", "HGNC", "EGFR").
Definition ex_w : ex_node := ("Protein", "HGNC", "MAPK1").

Definition ex_empty : ex_graph :=
  BELGraph_init "document_metadata" "pybel_version" "namespace_url"
    "namespace_owl" "namespace_pattern" "annotation_url" "annotation_owl"
    "annotation_pattern" "annotation_list" "0.5.0" ∅.

Definition ex_run (r : result (heap * ex_graph)) : heap * ex_graph :=
  match r with
  | Ok s => s
  | Raise _ => ([], ex_empty)
  end.

(** The receiver: [AKT1] added as a simple node, and the unqualified edge
    [AKT1 hasComponent EGFR]. *)
Definition ex_g_state : heap * ex_graph :=
  ex_run (s ← add_simple_node "function" "namespace" "name" ex_tuple3
                "Protein" "HGNC" "AKT1" ([], ex_empty);
          add_unqualified_edge "relation" "annotations" ex_code
            ex_u ex_v "hasComponent" s).

(** The donor, built in the same store: a [hasComponent] edge between the
    same nodes that also carries evidence, a qualified edge, and the
    simple node [MAPK1]. *)
Definition ex_h_state : heap * ex_graph :=
  ex_run (add_simple_node "function" "namespace" "name" ex_tuple3
            "Protein" "HGNC" "MAPK1"
            (add_edge ex_u ex_v None None
               (<["evidence" := VStr "PMID 9611787"]>
                  (<["relation" := VStr "increases"]> ∅))
               (add_edge ex_u ex_v (Some (-1)%Z) None
                  (<["evidence" := VStr "curated"]>
                     (<["annotations" := VDict ∅]>
                        (<["relation" := VStr "hasComponent"]> ∅)))
                  (ex_g_state.1, ex_empty)))).

Definition ex_σ : heap := ex_h_state.1.
Definition ex_g : ex_graph := ex_g_state.2.
Definition ex_h : ex_graph := ex_h_state.2.

(** The store and the receiver after [left_full_merge(ex_g, ex_h)]. *)
Definition ex_merged : heap * ex_graph :=
  ex_run (left_full_merge ex_σ ex_g ex_h).

Definition is_Ok {A} (r : result A) : bool :=
  match r with
  | Ok _ => true
  | Raise _ => false
  end.

(** * Facts *)

(** ** The store *)

Lemma deref_prefix (σ σ' : heap) (l : loc) :
  σ `prefix_of` σ' → l < length σ → deref σ' l = deref σ l.
Proof.
  intros [τ ->] Hl. unfold deref. by rewrite lookup_app_l.
Qed.

Lemma deref_alloc (σ : heap) (d : attrs) : deref (σ ++ [d]) (length σ) = d.
Proof.
  unfold deref. rewrite lookup_app_r by lia.
  by rewrite Nat.sub_diag.
Qed.

Lemma dict_update_empty (a : loc) (σ : heap) : dict_update a ∅ σ = σ.
Proof.
  unfold dict_update, deref. rewrite (left_id_L ∅ (∪)).
  destruct (σ !! a) as [d|] eqn:Hd; simpl.
  - by apply list_insert_id.
  - apply list_insert_ge. by apply lookup_ge_None.
Qed.

Lemma dict_update_new (σ : heap) (d : attrs) :
  dict_update (length σ) d (σ ++ [∅]) = σ ++ [d].
Proof.
  unfold dict_update. rewrite deref_alloc, (right_id_L ∅ (∪)).
  replace (length σ) with (length σ + 0) at 1 by lia.
  by rewrite insert_app_r.
Qed.

(** ** Loops *)

Lemma for_each_app {A S} (body : A → S → result S) xs ys (s : S) :
  for_each body (xs ++ ys) s = s' ← for_each body xs s; for_each body ys s'.
Proof.
  revert s. induction xs as [|x xs IH]; intros s; simpl; [done|].
  destruct (body x s) as [s'|e]; simpl; [apply IH | done].
Qed.

(** A loop all of whose iterations leave the state alone. *)
Lemma for_each_skip {A S} (body : A → S → result S) xs (s : S) :
  (∀ x, x ∈ xs → body x s = Ok s) → for_each body xs s = Ok s.
Proof.
  induction xs as [|x xs IH]; intros Hb; simpl; [done|].
  rewrite Hb by left. simpl. apply IH. intros y Hy. apply Hb. by right.
Qed.

(** The loop rule: [I] is the invariant, [R] relates the state before an
    iteration to the state after it, and [Q x] is what the iteration for
    [x] establishes and later iterations keep. *)
Lemma for_each_inv {A S} (body : A → S → result S)
    (I : S → Prop) (R : S → S → Prop) (Q : A → S → Prop) xs s :
  (∀ s, R s s) →
  (∀ s1 s2 s3, R s1 s2 → R s2 s3 → R s1 s3) →
  (∀ x s s', I s → R s s' → Q x s → Q x s') →
  (∀ x s, x ∈ xs → I s → ∃ s', body x s = Ok s' ∧ I s' ∧ R s s' ∧ Q x s') →
  I s →
  ∃ s', for_each body xs s = Ok s' ∧ I s' ∧ R s s' ∧ ∀ x, x ∈ xs → Q x s'.
Proof.
  intros Hrefl Htrans Hstable. revert s.
  induction xs as [|x xs IH]; intros s Hstep Hs; simpl.
  - exists s. split_and!; [done..|]. intros x Hx. by apply elem_of_nil in Hx.
  - destruct (Hstep x s) as (s1 & -> & Hs1 & HR1 & HQ1); [by left|done|].
    simpl. destruct (IH s1) as (s2 & -> & Hs2 & HR2 & HQ2); [|done|].
    { intros y t Hy. apply Hstep. by right. }
    exists s2. split_and!; [done..|by eapply Htrans|].
    intros y [->|Hy]%elem_of_cons; [|by apply HQ2].
    by apply (Hstable _ s1).
Qed.

(** ** Fresh edge keys *)

Lemma key_search_spec (keydict : gmap Z loc) fuel key :
  size (filter (λ k, (key ≤ k)%Z) (dom keydict)) ≤ fuel →
  keydict !! key_search keydict fuel key = None ∧
  (key ≤ key_search keydict fuel key)%Z.
Proof.
  revert key. induction fuel as [|fuel IH]; intros key Hsz; simpl.
  - split; [|lia]. apply not_elem_of_dom. intros Hin.
    assert (key ∈ filter (λ k, (key ≤ k)%Z) (dom keydict)) as Hk.
    { apply elem_of_filter. split; [lia|done]. }
    apply Nat.le_0_r, size_empty_iff in Hsz.
    apply Hsz in Hk. by apply not_elem_of_empty in Hk.
  - destruct (keydict !! key) as [l|] eqn:Hk; [|split; [done|lia]].
    destruct (IH (key + 1)%Z) as [? ?]; [|split; [done|lia]].
    assert (key ∈ filter (λ k, (key ≤ k)%Z) (dom keydict)) as Hin.
    { apply elem_of_filter. split; [lia|]. by apply elem_of_dom. }
    assert (filter (λ k, (key + 1 ≤ k)%Z) (dom keydict)
              ⊆ filter (λ k, (key ≤ k)%Z) (dom keydict) ∖ {[key]}) as Hsub.
    { intros k [Hle Hd]%elem_of_filter. apply elem_of_difference.
      split; [apply elem_of_filter; split; [lia|done]|].
      rewrite elem_of_singleton. lia. }
    apply subseteq_size in Hsub.
    rewrite size_difference in Hsub by set_solver.
    rewrite size_singleton in Hsub. lia.
Qed.

Lemma new_key_spec (keydict : gmap Z loc) :
  keydict !! new_key keydict = None ∧ (0 ≤ new_key keydict)%Z.
Proof.
  unfold new_key.
  destruct (key_search_spec keydict (size keydict) (Z.of_nat (size keydict)))
    as [? ?]; [|split; [done|lia]].
  rewrite <- (size_dom (D:=gset Z)). apply subseteq_size.
  intros k [_ ?]%elem_of_filter. done.
Qed.


Lemma NoDup_all_eq {A} (xs : list A) x :
  NoDup xs → x ∈ xs → (∀ y, y ∈ xs → y = x) → xs = [x].
Proof.
  intros Hnd Hin Hall. destruct xs as [|y [|z zs]].
  - by apply elem_of_nil in Hin.
  - f_equal. apply Hall. by left.
  - assert (y = x) as -> by (apply Hall; by left).
    assert (z = x) as -> by (apply Hall; right; by left).
    apply NoDup_cons in Hnd as [Hx _]. destruct Hx. by left.
Qed.

Lemma filter_unique {A} (P : A → Prop) `{∀ x, Decision (P x)} (xs : list A) x :
  NoDup xs → x ∈ xs → P x → (∀ y, y ∈ xs → P y → y = x) → filter P xs = [x].
Proof.
  intros Hnd Hin Hx Huniq. apply NoDup_all_eq.
  - by apply NoDup_filter.
  - by apply list_elem_of_filter.
  - intros y [? ?]%list_elem_of_filter. by apply Huniq.
Qed.

Lemma repeat_call_fixed {S} (body : S → result S) n (s : S) :
  body s = Ok s → repeat_call body n s = Ok s.
Proof.
  intros Hb. induction n as [|n IH]; simpl; [done|]. by rewrite Hb.
Qed.

Section graph_facts.
Context {N : Type} `{Countable N} {Exc : Type}.
Implicit Types (g h : BELGraph (N:=N) (Exc:=Exc)) (σ : heap) (u v n : N).
Implicit Types (k : Z) (key : option Z) (l d a : loc) (attr : attrs).
Implicit Types (s : heap * BELGraph (N:=N) (Exc:=Exc)).

(** ** Edges *)

Lemma edge_Some g u v k l :
  edge g u v k = Some l ↔
  ∃ nbrs keydict,
    adj g !! u = Some nbrs ∧ nbrs !! v = Some keydict ∧ keydict !! k = Some l.
Proof.
  unfold edge. split.
  - intros Hl. destruct (adj g !! u) as [nbrs|]; [|done]. simpl in Hl.
    destruct (nbrs !! v) as [keydict|] eqn:Hv; [|done]. simpl in Hl.
    by exists nbrs, keydict.
  - intros (nbrs & keydict & -> & Hv & Hk). simpl. by rewrite Hv.
Qed.

Lemma edge_insert_edge g u v k l u' v' k' :
  edge (set_adj (insert_edge u v k l) g) u' v' k' =
  if decide (u' = u ∧ v' = v ∧ k' = k) then Some l else edge g u' v' k'.
Proof.
  unfold edge, insert_edge. simpl.
  destruct (decide (u' = u)) as [->|Hu].
  - rewrite lookup_insert_eq. simpl.
    destruct (decide (v' = v)) as [->|Hv].
    + rewrite lookup_insert_eq. simpl.
      destruct (decide (k' = k)) as [->|Hk].
      * rewrite lookup_insert_eq. by rewrite decide_True.
      * rewrite lookup_insert_ne by done. rewrite decide_False by (by intros (? & ? & ?)).
        destruct (adj g !! u) as [nbrs|]; simpl; [|done].
        by destruct (nbrs !! v).
    + rewrite lookup_insert_ne by done. rewrite decide_False by (by intros (? & ? & ?)).
      by destruct (adj g !! u).
  - rewrite lookup_insert_ne by done. by rewrite decide_False by (by intros (? & ? & ?)).
Qed.

Lemma edge_add_isolated g n u v k :
  adj g !! n = None → edge (set_adj <[n := ∅]> g) u v k = edge g u v k.
Proof.
  intros Hn. unfold edge. simpl. destruct (decide (u = n)) as [->|Hu].
  - by rewrite lookup_insert_eq, Hn.
  - by rewrite lookup_insert_ne.
Qed.

Lemma edge_set_node g (f : gmap N loc → gmap N loc) u v k :
  edge (set_node f g) u v k = edge g u v k.
Proof. done. Qed.

(** The edges that [edges_iter] goes through are the edges of the graph,
    each once. *)
Lemma elem_of_nx_edges_iter g u v k l :
  (u, v, k, l) ∈ nx_edges_iter g None ↔ edge g u v k = Some l.
Proof.
  unfold nx_edges_iter. rewrite edge_Some. split.
  - intros ([n nbrs] & Hin1 & Hn)%list_elem_of_bind.
    apply list_elem_of_bind in Hin1 as ([nbr keydict] & Hin2 & Hnbr).
    apply list_elem_of_bind in Hin2 as ([key ddict] & Hin3 & Hkey).
    apply list_elem_of_singleton in Hin3. simplify_eq.
    apply elem_of_map_to_list in Hn, Hnbr, Hkey. eauto.
  - intros (nbrs & keydict & Hu & Hv & Hk).
    apply list_elem_of_bind. exists (u, nbrs).
    split; [|by apply elem_of_map_to_list].
    apply list_elem_of_bind. exists (v, keydict).
    split; [|by apply elem_of_map_to_list].
    apply list_elem_of_bind. exists (k, l).
    split; [|by apply elem_of_map_to_list].
    by apply list_elem_of_singleton.
Qed.

Lemma NoDup_nx_edges_iter g : NoDup (nx_edges_iter g None).
Proof.
  unfold nx_edges_iter. apply NoDup_bind; [| |apply NoDup_map_to_list].
  - intros [n1 nbrs1] [n2 nbrs2] e Hin1 Hin2 He1 He2.
    apply list_elem_of_bind in He1 as ([? ?] & He1 & _).
    apply list_elem_of_bind in He1 as ([? ?] & He1 & _).
    apply list_elem_of_bind in He2 as ([? ?] & He2 & _).
    apply list_elem_of_bind in He2 as ([? ?] & He2 & _).
    apply list_elem_of_singleton in He1, He2. simplify_eq.
    apply elem_of_map_to_list in Hin1, Hin2. by simplify_eq.
  - intros [n nbrs] _. apply NoDup_bind; [| |apply NoDup_map_to_list].
    + intros [v1 kd1] [v2 kd2] e Hin1 Hin2 He1 He2.
      apply list_elem_of_bind in He1 as ([? ?] & He1 & _).
      apply list_elem_of_bind in He2 as ([? ?] & He2 & _).
      apply list_elem_of_singleton in He1, He2. simplify_eq.
      apply elem_of_map_to_list in Hin1, Hin2. by simplify_eq.
    + intros [nbr keydict] _. apply NoDup_bind; [| |apply NoDup_map_to_list].
      * intros [k1 d1] [k2 d2] e _ _ He1 He2.
        apply list_elem_of_singleton in He1, He2. by simplify_eq.
      * intros [key ddict] _. apply NoDup_singleton.
Qed.

(** ** Well-formed states *)

Lemma wf_consistent σ g : wf σ g = true → consistent g.
Proof.
  unfold wf. rewrite !andb_true_iff, !bool_decide_eq_true. by intros [[? ?] ?].
Qed.

Lemma wf_closed σ g : wf σ g = true → closed σ g.
Proof.
  unfold wf. rewrite !andb_true_iff, !bool_decide_eq_true.
  intros [[_ Hn] He]. split.
  - intros n l Hl. by apply (map_Forall_lookup_1 _ _ _ _ Hn Hl).
  - intros u v k l (nbrs & keydict & Hu & Hv & Hk)%edge_Some.
    pose proof (map_Forall_lookup_1 _ _ _ _ He Hu) as He1. simpl in He1.
    pose proof (map_Forall_lookup_1 _ _ _ _ He1 Hv) as He2. simpl in He2.
    by apply (map_Forall_lookup_1 _ _ _ _ He2 Hk).
Qed.

Lemma closed_prefix σ σ' g : closed σ g → σ `prefix_of` σ' → closed σ' g.
Proof.
  intros [Hn He] Hp%prefix_length. split.
  - intros n l Hl. apply Hn in Hl. lia.
  - intros u v k l Hl. apply He in Hl. lia.
Qed.

Lemma consistent_node_None g n :
  consistent g → adj g !! n = None → node g !! n = None.
Proof.
  intros Hc Hn. apply not_elem_of_dom. rewrite Hc. by apply not_elem_of_dom.
Qed.

Lemma consistent_adj_Some g n l :
  consistent g → node g !! n = Some l → is_Some (adj g !! n).
Proof.
  intros Hc Hn. apply elem_of_dom. rewrite <- Hc. by apply elem_of_dom.
Qed.

Global Instance extends_preorder :
  PreOrder (extends (N:=N) (Exc:=Exc)).
Proof.
  split.
  - intros [σ g]. by split_and!.
  - intros [σ1 g1] [σ2 g2] [σ3 g3].
    intros (Hp1 & Hn1 & He1 & Hg1 & Hw1 & Hs1) (Hp2 & Hn2 & He2 & Hg2 & Hw2 & Hs2).
    simpl in *. split_and!; simpl.
    + by etrans.
    + by etrans.
    + intros u v k l Hl. by apply He2, He1.
    + congruence.
    + congruence.
    + congruence.
Qed.

(** ** [add_edge] *)

Lemma ensure_node_spec σ g n :
  consistent g → closed σ g →
  ∃ σ' g', ensure_node n (σ, g) = (σ', g') ∧
    consistent g' ∧ closed σ' g' ∧ extends (σ, g) (σ', g') ∧
    is_Some (adj g' !! n) ∧
    dom (node g') = dom (node g) ∪ {[n]} ∧
    (∀ u v k, edge g' u v k = edge g u v k) ∧
    (∀ m l, node g' !! m = Some l →
       node g !! m = Some l ∨
       (node g !! m = None ∧ m = n ∧ length σ ≤ l ∧ deref σ' l = ∅)).
Proof.
  intros Hc Hcl. unfold ensure_node.
  destruct (adj g !! n) as [nbrs|] eqn:Hn.
  - exists σ, g. split_and!; try done; [|by left].
    assert (n ∈ dom (node g)); [|set_solver].
    rewrite Hc. by apply elem_of_dom.
  - simpl. eexists _, _. split; [done|].
    pose proof (consistent_node_None _ _ Hc Hn) as Hnode.
    split_and!.
    + unfold consistent. simpl. rewrite !dom_insert_L. by rewrite Hc.
    + destruct Hcl as [Hcn Hce]. split.
      * intros m l. simpl. rewrite length_app. simpl.
        destruct (decide (m = n)) as [->|Hm].
        -- rewrite lookup_insert_eq. intros [= <-]. lia.
        -- rewrite lookup_insert_ne by done. intros Hl%Hcn. lia.
      * intros u v k l. rewrite edge_set_node, edge_add_isolated by done.
        intros Hl%Hce. rewrite length_app. lia.
    + split_and!; simpl; try done.
      * by apply prefix_app_r.
      * by apply insert_subseteq.
      * intros u v k l. by rewrite edge_set_node, edge_add_isolated.
    + simpl. by rewrite lookup_insert_eq.
    + simpl. rewrite dom_insert_L. set_solver.
    + intros u v k. by rewrite edge_set_node, edge_add_isolated.
    + intros m l. simpl. destruct (decide (m = n)) as [->|Hm].
      * rewrite lookup_insert_eq. intros [= <-]. right.
        split_and!; [done..|]. apply deref_alloc.
      * rewrite lookup_insert_ne by done. by left.
Qed.

Lemma setup_attr_dict_spec attr_dict attr σ :
  match attr_dict with Some a => a < length σ ∧ attr = ∅ | None => True end →
  ∃ a σ', setup_attr_dict attr_dict attr σ = (a, σ') ∧
    σ `prefix_of` σ' ∧ a < length σ' ∧
    deref σ' a = match attr_dict with Some a => deref σ a | None => attr end.
Proof.
  destruct attr_dict as [a|]; simpl.
  - intros [Ha ->]. exists a, σ. by rewrite dict_update_empty.
  - intros _. eexists _, _. split; [done|]. split_and!.
    + by apply prefix_app_r.
    + rewrite length_app. simpl. lia.
    + apply deref_alloc.
Qed.

(** [add_edge] with no key, or with a key that the pair does not have yet,
    adds one edge with a new data dictionary and keeps all there was. *)
Lemma add_edge_new σ g u v key attr_dict attr :
  consistent g → closed σ g →
  match attr_dict with Some a => a < length σ ∧ attr = ∅ | None => True end →
  (∀ k, key = Some k → edge g u v k = None) →
  ∃ σ' g' k' l', add_edge u v key attr_dict attr (σ, g) = (σ', g') ∧
    consistent g' ∧ closed σ' g' ∧ extends (σ, g) (σ', g') ∧
    edge g u v k' = None ∧
    (∀ u1 v1 k1, edge g' u1 v1 k1 =
       if decide (u1 = u ∧ v1 = v ∧ k1 = k') then Some l' else edge g u1 v1 k1) ∧
    length σ ≤ l' ∧ l' < length σ' ∧
    deref σ' l' = match attr_dict with Some a => deref σ a | None => attr end ∧
    match key with Some k => k' = k | None => (0 ≤ k')%Z end ∧
    dom (node g') = dom (node g) ∪ {[u; v]} ∧
    (∀ m l, node g' !! m = Some l →
       node g !! m = Some l ∨
       (node g !! m = None ∧ (m = u ∨ m = v) ∧ length σ ≤ l ∧
        deref σ' l = ∅)).
Proof.
  intros Hc Hcl Hattr Hkey. unfold add_edge.
  destruct (setup_attr_dict_spec _ _ _ Hattr) as (a & σ1 & -> & Hp1 & Ha & Hda).
  pose proof (closed_prefix _ _ _ Hcl Hp1) as Hcl1.
  destruct (ensure_node_spec σ1 g u Hc Hcl1)
    as (σ2 & g2 & -> & Hc2 & Hcl2 & Hx2 & Hu2 & Hd2 & He2 & Hn2).
  destruct (ensure_node_spec σ2 g2 v Hc2 Hcl2)
    as (σ3 & g3 & -> & Hc3 & Hcl3 & Hx3 & Hv3 & Hd3 & He3 & Hn3).
  assert (extends (σ, g) (σ3, g3)) as Hx.
  { etrans; [|etrans; [apply Hx2|apply Hx3]].
    split_and!; done. }
  destruct Hx as (Hp & Hn & Hedge & Hgr & Hw & Hs). simpl in *.
  assert (∀ u1 v1 k1, edge g3 u1 v1 k1 = edge g u1 v1 k1) as He.
  { intros. by rewrite He3, He2. }
  assert (is_Some (adj g3 !! u)) as [nbrs Hnbrs].
  { apply elem_of_dom. rewrite <- Hc3, Hd3, Hd2. set_solver. }
  rewrite Hnbrs. simpl.
  (* the key that the edge gets, and that it is new *)
  set (k' := match nbrs !! v with
             | Some keydict =>
                 match key with None => new_key keydict | Some k => k end
             | None => default 0%Z key
             end).
  assert (edge g3 u v k' = None ∧
          match key with Some k => k' = k | None => (0 ≤ k')%Z end) as [Hk' Hk'key].
  { destruct key as [k|]; simpl.
    - assert (k' = k) as -> by (unfold k'; by destruct (nbrs !! v)).
      split; [|done]. rewrite He. by apply Hkey.
    - unfold k'. unfold edge. rewrite Hnbrs. simpl.
      destruct (nbrs !! v) as [keydict|]; simpl; [|done].
      apply new_key_spec. }
  set (σ4 := σ3 ++ [deref σ3 a]).
  assert (a < length σ3) as Ha3.
  { destruct Hx2 as [Hp2 _], Hx3 as [Hp3 _]. simpl in *.
    apply prefix_length in Hp2, Hp3. lia. }
  assert (deref (σ3 ++ [∅]) a = deref σ3 a) as Hda3.
  { apply deref_prefix; [by apply prefix_app_r|done]. }
  assert (σ1 `prefix_of` σ3) as Hp13.
  { destruct Hx2 as [Hp2 _], Hx3 as [Hp3 _]. simpl in *. by etrans. }
  exists σ4, (set_adj (insert_edge u v k' (length σ3)) g3), k', (length σ3).
  split.
  { unfold k', σ4, insert_edge, set_adj. simpl. rewrite Hnbrs. simpl.
    destruct (nbrs !! v) as [keydict|] eqn:Hv; simpl.
    - assert (keydict !! k' = None) as Hnone.
      { revert Hk'. unfold edge. rewrite Hnbrs. simpl. by rewrite Hv. }
      fold k'. rewrite Hnone. simpl. by rewrite Hda3, dict_update_new.
    - fold k'. by rewrite Hda3, dict_update_new, insert_empty. }
  assert (length σ4 = S (length σ3)) as Hlen4.
  { unfold σ4. rewrite length_app. simpl. lia. }
  assert (σ3 `prefix_of` σ4) as Hp34 by (by apply prefix_app_r).
  split_and!.
  - unfold consistent, insert_edge. simpl. rewrite Hnbrs. simpl.
    rewrite dom_insert_L, Hc3.
    assert (u ∈ dom (adj g3)) by (by apply elem_of_dom). set_solver.
  - destruct Hcl3 as [Hcn Hce]. split.
    + intros n l Hl. simpl in Hl. apply Hcn in Hl. lia.
    + intros u1 v1 k1 l. rewrite edge_insert_edge. case_decide.
      * intros [= <-]. lia.
      * intros Hl%Hce. lia.
  - split_and!; simpl; try done.
    + by etrans.
    + intros u1 v1 k1 l Hl. rewrite edge_insert_edge. case_decide as Heq.
      * destruct Heq as (-> & -> & ->). rewrite <- He in Hl. congruence.
      * by rewrite He.
  - by rewrite <- He.
  - intros u1 v1 k1. rewrite edge_insert_edge. by rewrite He.
  - apply prefix_length in Hp. lia.
  - lia.
  - unfold σ4. rewrite deref_alloc. rewrite <- Hda.
    by apply deref_prefix.
  - done.
  - simpl. rewrite Hd3, Hd2. set_solver.
  - intros m l Hl. simpl in Hl.
    assert (l < length σ3) as Hl3 by (destruct Hcl3 as [Hcn _]; by apply (Hcn m)).
    assert (deref σ4 l = deref σ3 l) as Hd43 by (by apply deref_prefix).
    assert (length σ ≤ length σ1) as Hlen1 by (by apply prefix_length).
    destruct Hx2 as (Hp2 & Hsub2 & _), Hx3 as (Hp3 & _). simpl in *.
    pose proof (prefix_length _ _ Hp2) as Hlen2.
    destruct (Hn3 m l Hl) as [Hl2|(Hnone2 & -> & Hge & Hempty)].
    + destruct (Hn2 m l Hl2) as [?|(Hnone & -> & Hge & Hempty)]; [by left|].
      right. split_and!; [done|by left|lia|].
      rewrite Hd43. rewrite <- Hempty. apply deref_prefix; [done|].
      destruct Hcl2 as [Hcn _]. by apply (Hcn u).
    + right. split_and!; [|by right|lia|by rewrite Hd43].
      destruct (node g !! v) as [l0|] eqn:Hg0; [|done].
      apply (lookup_weaken _ _ _ _ Hg0) in Hsub2. congruence.
Qed.

(** ** [add_node] *)

(** [add_node] for a node that the graph does not have. *)
Lemma add_node_new σ g n attr_dict attr :
  consistent g → closed σ g →
  match attr_dict with Some a => a < length σ ∧ attr = ∅ | None => True end →
  node g !! n = None →
  ∃ σ' g' a, add_node n attr_dict attr (σ, g) = Ok (σ', g') ∧
    consistent g' ∧ closed σ' g' ∧ extends (σ, g) (σ', g') ∧
    node g' = <[n := a]> (node g) ∧
    adj g' = <[n := ∅]> (adj g) ∧
    (∀ u v k, edge g' u v k = edge g u v k) ∧
    match attr_dict with
    | Some a' => a = a' ∧ σ' = σ
    | None => a = length σ ∧ σ' = σ ++ [attr]
    end.
Proof.
  intros Hc Hcl Hattr Hn. unfold add_node.
  assert (adj g !! n = None) as Hadj.
  { apply not_elem_of_dom. rewrite <- Hc. by apply not_elem_of_dom. }
  destruct (setup_attr_dict_spec _ _ _ Hattr) as (a & σ1 & Hsetup & Hp1 & Ha & Hda).
  rewrite Hsetup, Hadj.
  exists σ1, (set_node <[n := a]> (set_adj <[n := ∅]> g)), a.
  split; [done|].
  destruct (closed_prefix _ _ _ Hcl Hp1) as [Hcn Hce].
  split_and!; try done.
  - unfold consistent. simpl. rewrite !dom_insert_L. by rewrite Hc.
  - split.
    + intros m l. simpl. destruct (decide (m = n)) as [->|Hm].
      * rewrite lookup_insert_eq. by intros [= <-].
      * rewrite lookup_insert_ne by done. apply Hcn.
    + intros u v k l. rewrite edge_set_node, edge_add_isolated by done.
      apply Hce.
  - split_and!; simpl; try done.
    + by apply insert_subseteq.
    + intros u v k l. by rewrite edge_set_node, edge_add_isolated.
  - intros u v k. by rewrite edge_set_node, edge_add_isolated.
  - destruct attr_dict as [a'|]; simpl in Hsetup.
    + destruct Hattr as [_ ->]. rewrite dict_update_empty in Hsetup.
      by simplify_eq.
    + unfold alloc in Hsetup. by simplify_eq.
Qed.

(** ** Iteration *)

Lemma subdict_matches_spec (target query : attrs) :
  subdict_matches target query = true ↔ query ⊆ target.
Proof.
  unfold subdict_matches. rewrite forallb_forall, map_subseteq_spec. split.
  - intros Hall i x Hi. apply elem_of_map_to_list, list_elem_of_In in Hi.
    apply Hall in Hi. by apply bool_decide_eq_true in Hi.
  - intros Hsub [i x] Hi%list_elem_of_In%elem_of_map_to_list.
    apply bool_decide_eq_true. simpl. by apply Hsub.
Qed.

Lemma subdict_matches_empty (target : attrs) : subdict_matches target ∅ = true.
Proof. apply subdict_matches_spec, map_empty_subseteq. Qed.

Lemma omap_Some_id {A B} (f : A → option B) (g : A → B) (xs : list A) :
  (∀ x, f x = Some (g x)) → omap f xs = g <$> xs.
Proof.
  intros Hf. induction xs as [|x xs IH]; csimpl; [done|].
  by rewrite Hf, IH.
Qed.

Lemma nodes_iter_all σ g : nodes_iter σ g false ∅ = (map_to_list (node g)).*1.
Proof.
  unfold nodes_iter, nx_nodes_iter. apply omap_Some_id.
  intros nd. by rewrite subdict_matches_empty.
Qed.

Lemma edges_iter_all σ g :
  edges_iter σ g None true true ∅ = nx_edges_iter g None.
Proof.
  unfold edges_iter. rewrite <- (list_fmap_id (nx_edges_iter g None)) at 2.
  apply omap_Some_id. intros [[[u v] k] d]. by rewrite subdict_matches_empty.
Qed.

Lemma elem_of_nodes_iter_all σ g n :
  n ∈ nodes_iter σ g false ∅ ↔ n ∈ dom (node g).
Proof.
  rewrite nodes_iter_all, elem_of_dom. split.
  - intros ([m l] & -> & Hin%elem_of_map_to_list)%list_elem_of_fmap. eauto.
  - intros [l Hl]. apply list_elem_of_fmap. exists (n, l).
    split; [done|]. by apply elem_of_map_to_list.
Qed.

(** ** [left_full_merge] *)

Local Arguments add_node : simpl never.
Local Arguments add_edge : simpl never.

Section merge.
Variables (σ0 : heap) (g0 h : BELGraph (N:=N) (Exc:=Exc)).
Hypothesis Hh_consistent : consistent h.
Hypothesis Hh_closed : closed σ0 h.

Local Arguments edge_merged : simpl never.

Lemma unqualified_origin_extends s s' :
  closed s.1 s.2 →
  s.1 `prefix_of` s'.1 →
  (∀ u v k l, edge s'.2 u v k = Some l → (k < 0)%Z →
     edge s.2 u v k = Some l ∨
     ∃ d, edge h u v k = Some d ∧ deref s'.1 l = deref σ0 d) →
  (unqualified_origin σ0 g0 h) s → (unqualified_origin σ0 g0 h) s'.
Proof.
  intros [_ Hce] Hp Hnew Ho u v k l Hl Hk.
  destruct (Hnew u v k l Hl Hk) as [Hold|?]; [|by right].
  destruct (Ho u v k l Hold Hk) as [?|(d & Hd & Heq)]; [by left|].
  right. exists d. split; [done|]. rewrite <- Heq.
  apply deref_prefix; [done|]. by apply (Hce u v k).
Qed.

Lemma edge_merged_extends e s s' :
  extends s s' → (edge_merged σ0) e s → (edge_merged σ0) e s'.
Proof.
  destruct e as [[[u v] k] d], s as [σ g], s' as [σ' g'].
  unfold edge_merged.
  intros (Hp & _ & He & _) (k' & l' & Hl' & Hlen & Hcase). simpl in *.
  exists k', l'. split_and!.
  - by apply He.
  - apply prefix_length in Hp. lia.
  - case_bool_decide; [done|]. destruct Hcase as [? <-].
    split; [done|]. by apply deref_prefix.
Qed.

Lemma merge_node_step n s :
  n ∈ dom (node h) → (merge_inv σ0 g0 h) s →
  ∃ s', merge_node h n s = Ok s' ∧ (merge_inv σ0 g0 h) s' ∧ extends s s' ∧
    (∀ u v k, edge s'.2 u v k = edge s.2 u v k) ∧
    n ∈ dom (node s'.2).
Proof.
  destruct s as [σ g]. intros [a Ha]%elem_of_dom (Hc & Hcl & Hp & Ho).
  unfold merge_node, contains. simpl in *. case_bool_decide as Hn; simpl.
  - exists (σ, g). by split_and!.
  - apply not_elem_of_dom in Hn. unfold getitem. rewrite Ha. simpl.
    assert (a < length σ) as Hlen.
    { destruct Hh_closed as [Hcn _]. apply Hcn in Ha.
      apply prefix_length in Hp. lia. }
    destruct (add_node_new σ g n (Some a) ∅ Hc Hcl) as
      (σ' & g' & a' & -> & Hc' & Hcl' & Hx & Hnode & _ & He & -> & ->);
      [done..|].
    exists (σ, g'). split_and!; try done.
    + split_and!; try done. intros u v k l. simpl. rewrite He. apply Ho.
    + simpl. rewrite Hnode. apply elem_of_dom. by rewrite lookup_insert_eq.
Qed.

Lemma merge_edge_step u v k d s :
  edge h u v k = Some d → (merge_inv σ0 g0 h) s → dom (node h) ⊆ dom (node s.2) →
  ∃ s', merge_edge (u, v, k, d) s = Ok s' ∧ (merge_inv σ0 g0 h) s' ∧ extends s s' ∧
    (edge_merged σ0) (u, v, k, d) s'.
Proof.
  destruct s as [σ g]. intros Hd (Hc & Hcl & Hp & Ho) Hsub. simpl in *.
  assert (d < length σ0) as Hd0.
  { destruct Hh_closed as [_ Hce]. by apply (Hce u v k). }
  assert (d < length σ) as Hdlen.
  { apply prefix_length in Hp. lia. }
  assert (deref σ d = deref σ0 d) as Hdd by (by apply deref_prefix).
  assert (is_Some (adj g !! u)) as [nbrs Hnbrs].
  { apply elem_of_dom. rewrite <- Hc. apply Hsub. rewrite Hh_consistent.
    apply edge_Some in Hd as (? & ? & Hu & _). by apply elem_of_dom. }
  (* the two ways in which the loop body leaves the receiver *)
  assert (∀ key, (∀ k1, key = Some k1 → k1 = k ∧ edge g u v k = None) →
          (key = None → ¬ (k < 0)%Z) →
          ∃ s', add_edge u v key (Some d) ∅ (σ, g) = s' ∧ (merge_inv σ0 g0 h) s' ∧
            extends (σ, g) s' ∧ (edge_merged σ0) (u, v, k, d) s') as Hadd.
  { intros key Hkey Hqual.
    destruct (add_edge_new σ g u v key (Some d) ∅ Hc Hcl) as
      (σ' & g' & k' & l' & -> & Hc' & Hcl' & Hx & Hnew & He & Hfresh & Hl'
         & Hcont & Hk' & _); [done| |].
    { intros k1 Hk1. destruct (Hkey k1 Hk1) as [-> ?]. done. }
    exists (σ', g'). split; [done|]. split; [|split; [done|]].
    { split_and!; [done|done| |].
      - destruct Hx as [Hp' _]. simpl in Hp'. by etrans.
      - eapply (unqualified_origin_extends (σ, g)); [done|apply Hx| |done].
        simpl. intros u1 v1 k1 l. rewrite He. case_decide as Heq; [|by left].
        destruct Heq as (-> & -> & ->). intros [= <-] Hneg. right.
        exists d. destruct key as [k1|]; [|lia].
        destruct (Hkey k1 eq_refl) as [-> _]. subst k'.
        split; [done|]. by rewrite Hcont. }
    unfold edge_merged. exists k', l'. simpl. rewrite He, decide_True by done.
    split_and!; [done..|]. case_bool_decide as Hneg.
    - destruct key as [k1|]; [|by destruct Hqual].
      destruct (Hkey k1 eq_refl) as [-> _]. done.
    - destruct key as [k1|].
      + destruct (Hkey k1 eq_refl) as [-> _]. subst k'. split; [lia|].
        by rewrite Hcont.
      + split; [done|]. by rewrite Hcont. }
  assert (∀ k' l', edge g u v k' = Some l' →
          (if bool_decide (k < 0)%Z then k' = k
           else (0 ≤ k')%Z ∧ deref σ l' = deref σ0 d) →
          ∃ s', Ok (σ, g) = Ok s' ∧ (merge_inv σ0 g0 h) s' ∧
            extends (σ, g) s' ∧ (edge_merged σ0) (u, v, k, d) s') as Hskip.
  { intros k' l' Hl' Hcase. exists (σ, g). split_and!; try done.
    unfold edge_merged. exists k', l'. simpl. split_and!; [done| |done].
    destruct Hcl as [_ Hce]. by apply (Hce u v k'). }
  unfold merge_edge, getitem. simpl. rewrite Hnbrs. simpl.
  assert (∀ k1, edge g u v k1 = nbrs !! v ≫= λ keydict, keydict !! k1) as Hedge.
  { intros k1. unfold edge. by rewrite Hnbrs. }
  case_bool_decide as Hneg.
  - destruct (nbrs !! v) as [keydict|] eqn:Hv.
    + case_bool_decide as Hk.
      * destruct (Hadd (Some k)) as (s' & <- & ?); [| |by eauto].
        -- intros k1 [= <-]. split; [done|]. rewrite Hedge. simpl.
           by apply not_elem_of_dom.
        -- done.
      * apply elem_of_dom in Hk as [l' Hl'].
        apply (Hskip k l').
        -- rewrite Hedge. by simpl.
        -- done.
    + destruct (Hadd (Some k)) as (s' & <- & ?); [| |by eauto].
      * intros k1 [= <-]. split; [done|]. by rewrite Hedge.
      * done.
  - destruct (nbrs !! v) as [keydict|] eqn:Hv.
    + destruct (existsb _ _) eqn:Hex.
      * apply existsb_exists in Hex as ([gk gd] & Hin & Htest).
        apply list_elem_of_In, elem_of_map_to_list in Hin.
        apply andb_true_iff in Htest as [Hgk%bool_decide_eq_true Heq%bool_decide_eq_true].
        simpl in *. apply (Hskip gk gd).
        -- rewrite Hedge. by simpl.
        -- split; [done|]. congruence.
      * destruct (Hadd None) as (s' & <- & ?); [done|done|by eauto].
    + destruct (Hadd None) as (s' & <- & ?); [done|done|by eauto].
Qed.

Lemma merge_inv_init : consistent g0 → closed σ0 g0 → (merge_inv σ0 g0 h) (σ0, g0).
Proof. intros Hc Hcl. split_and!; [done..|]. intros u v k l Hl _. by left. Qed.

Lemma merge_nodes_spec s :
  (merge_inv σ0 g0 h) s →
  ∃ s', for_each (merge_node h) (nodes_iter σ0 h false ∅) s = Ok s' ∧
    (merge_inv σ0 g0 h) s' ∧ extends s s' ∧ dom (node h) ⊆ dom (node s'.2).
Proof.
  intros Hs.
  destruct (for_each_inv (merge_node h) (merge_inv σ0 g0 h) extends
              (λ n s, n ∈ dom (node s.2)) (nodes_iter σ0 h false ∅) s)
    as (s' & Heq & Hs' & Hx & Hall); try done.
  - intros s1 s2 s3 ? ?. by etrans.
  - intros n s1 s2 _ (_ & Hn & _) Hin.
    by apply (subseteq_dom (node s1.2) (node s2.2)).
  - intros n s1 Hn%elem_of_nodes_iter_all Hs1.
    destruct (merge_node_step n s1 Hn Hs1) as (s2 & ? & ? & ? & _ & ?).
    by exists s2.
  - exists s'. split_and!; [done..|].
    intros n Hn. by apply Hall, elem_of_nodes_iter_all.
Qed.

Lemma merge_edges_spec s :
  (merge_inv σ0 g0 h) s → dom (node h) ⊆ dom (node s.2) →
  ∃ s', for_each merge_edge (edges_iter σ0 h None true true ∅) s = Ok s' ∧
    (merge_inv σ0 g0 h) s' ∧ extends s s' ∧
    ∀ u v k d, edge h u v k = Some d → (edge_merged σ0) (u, v, k, d) s'.
Proof.
  intros Hs Hsub. rewrite edges_iter_all.
  destruct (for_each_inv merge_edge
              (λ s, (merge_inv σ0 g0 h) s ∧ dom (node h) ⊆ dom (node s.2)) extends
              (edge_merged σ0) (nx_edges_iter h None) s)
    as (s' & Heq & [Hs' _] & Hx & Hall); try done.
  - intros s1 s2 s3 ? ?. by etrans.
  - intros e s1 s2 _ Hx. by apply edge_merged_extends.
  - intros [[[u v] k] d] s1 Hin%elem_of_nx_edges_iter [Hs1 Hsub1].
    destruct (merge_edge_step u v k d s1 Hin Hs1 Hsub1)
      as (s2 & ? & ? & Hx & ?).
    exists s2. split_and!; try done.
    etrans; [done|]. destruct Hx as (_ & Hn & _).
    by apply (subseteq_dom (node s1.2) (node s2.2)).
  - exists s'. split_and!; [done..|].
    intros u v k d Hd. by apply Hall, elem_of_nx_edges_iter.
Qed.

(** The merge returns, and what holds of the receiver afterwards. *)
Lemma left_full_merge_spec :
  consistent g0 → closed σ0 g0 →
  ∃ σ' g', left_full_merge σ0 g0 h = Ok (σ', g') ∧
    consistent g' ∧ closed σ' g' ∧ extends (σ0, g0) (σ', g') ∧
    dom (node h) ⊆ dom (node g') ∧
    (∀ u v k d, edge h u v k = Some d → (edge_merged σ0) (u, v, k, d) (σ', g')) ∧
    (unqualified_origin σ0 g0 h) (σ', g').
Proof.
  intros Hc Hcl. unfold left_full_merge.
  destruct (merge_nodes_spec (σ0, g0)) as (s1 & -> & Hs1 & Hx1 & Hsub1);
    [by apply merge_inv_init|].
  destruct (merge_edges_spec s1 Hs1 Hsub1) as ([σ' g'] & Heq & Hs2 & Hx2 & Hall).
  exists σ', g'. simpl. split; [done|].
  destruct Hs2 as (? & ? & ? & ?). split_and!; try done.
  - by etrans.
  - etrans; [done|]. destruct Hx2 as (_ & Hn & _).
    by apply (subseteq_dom (node s1.2) (node g')).
Qed.

(** A receiver that holds the donor's nodes and edges is left as it is. *)
Lemma left_full_merge_again σ g :
  consistent g → σ0 `prefix_of` σ →
  dom (node h) ⊆ dom (node g) →
  (∀ u v k d, edge h u v k = Some d → (edge_merged σ0) (u, v, k, d) (σ, g)) →
  left_full_merge σ g h = Ok (σ, g).
Proof.
  intros Hc Hp Hsub Hall. unfold left_full_merge.
  rewrite (for_each_skip (merge_node h) _ (σ, g)).
  - simpl. rewrite edges_iter_all. apply for_each_skip.
    intros [[[u v] k] d] Hd%elem_of_nx_edges_iter.
    destruct (Hall u v k d Hd) as (k' & l' & Hl' & _ & Hcase). simpl in *.
    apply edge_Some in Hl' as (nbrs & keydict & Hu & Hv & Hk').
    unfold merge_edge, getitem. simpl. rewrite Hu. simpl. rewrite Hv.
    case_bool_decide as Hneg.
    + subst k'. rewrite bool_decide_eq_false_2; [done|].
      intros Hk. apply Hk, elem_of_dom. eauto.
    + destruct Hcase as [Hk0 Heq].
      assert (existsb (λ kd : Z * loc,
                bool_decide (0 ≤ kd.1)%Z
                && bool_decide (deref σ d = deref σ kd.2))
              (map_to_list keydict) = true) as ->; [|done].
      apply existsb_exists. exists (k', l'). split.
      * by apply list_elem_of_In, elem_of_map_to_list.
      * simpl. apply andb_true_iff.
        split; apply bool_decide_eq_true; [done|].
        rewrite Heq. apply deref_prefix; [done|].
        destruct Hh_closed as [_ Hce]. by apply (Hce u v k).
  - intros n Hn%elem_of_nodes_iter_all. unfold merge_node, contains. simpl.
    rewrite bool_decide_eq_true_2; [done|]. by apply Hsub.
Qed.

End merge.

(** C1 (as amended). [left_full_merge(g, h)] returns, and afterwards: every
    node of [h] is a node of [g]; for every edge [(u, v, k)] of [h] with
    attributes [d], if [k] is non-negative, or [g] had no edge with key [k]
    between [u] and [v], then [g] has an edge between [u] and [v] whose
    attributes equal [d], and if [k] is negative then [g] has an edge with
    key [k] between [u] and [v]; every node and every edge that [g] had is
    still there with the same dictionary and the same contents; and every
    dictionary that existed before the call, those of [h] among them, has
    the contents it had. *)
Theorem left_full_merge_result σ g h :
  wf σ g = true → wf σ h = true →
  ∃ σ' g', left_full_merge σ g h = Ok (σ', g') ∧
    (∀ n, n ∈ dom (node h) → n ∈ dom (node g')) ∧
    (∀ u v k d, edge h u v k = Some d →
       ((0 ≤ k)%Z ∨ edge g u v k = None) →
       ∃ k' l', edge g' u v k' = Some l' ∧ deref σ' l' = deref σ d) ∧
    (∀ u v k d, edge h u v k = Some d → (k < 0)%Z →
       is_Some (edge g' u v k)) ∧
    (∀ n l, node g !! n = Some l →
       node g' !! n = Some l ∧ deref σ' l = deref σ l) ∧
    (∀ u v k l, edge g u v k = Some l →
       edge g' u v k = Some l ∧ deref σ' l = deref σ l) ∧
    (∀ l, l < length σ → σ' !! l = σ !! l) ∧
    (∀ n l, node h !! n = Some l → deref σ' l = deref σ l) ∧
    (∀ u v k l, edge h u v k = Some l → deref σ' l = deref σ l).
Proof.
  intros Hg Hh.
  pose proof (wf_consistent _ _ Hg) as Hgc. pose proof (wf_closed _ _ Hg) as Hgl.
  pose proof (wf_consistent _ _ Hh) as Hhc. pose proof (wf_closed _ _ Hh) as Hhl.
  destruct (left_full_merge_spec σ g h Hhc Hhl Hgc Hgl)
    as (σ' & g' & Heq & Hc' & Hcl' & (Hp & Hn & He & _) & Hsub & Hall & Ho).
  simpl in *. exists σ', g'. split; [done|].
  assert (∀ l, l < length σ → deref σ' l = deref σ l) as Hderef.
  { intros l Hl. by apply deref_prefix. }
  split_and!.
  - intros n Hn'. by apply Hsub.
  - intros u v k d Hd Hcase.
    destruct (Hall u v k d Hd) as (k' & l' & Hl' & _ & Hm). simpl in *.
    case_bool_decide as Hneg.
    + subst k'. destruct Hcase as [?|Hnone]; [lia|].
      exists k, l'. split; [done|].
      destruct (Ho u v k l' Hl' Hneg) as [Hold|(d' & Hd' & Heq')]; simpl in *.
      * congruence.
      * congruence.
    + destruct Hm as [_ Hm]. by exists k', l'.
  - intros u v k d Hd Hneg.
    destruct (Hall u v k d Hd) as (k' & l' & Hl' & _ & Hm). simpl in *.
    rewrite bool_decide_eq_true_2 in Hm by done. subst k'. eauto.
  - intros n l Hl. split.
    + by apply (lookup_weaken (node g)).
    + apply Hderef. destruct Hgl as [Hcn _]. by apply (Hcn n).
  - intros u v k l Hl. split; [by apply He|].
    apply Hderef. destruct Hgl as [_ Hce]. by apply (Hce u v k).
  - intros l Hl. destruct Hp as [τ ->]. by apply lookup_app_l.
  - intros n l Hl. apply Hderef. destruct Hhl as [Hcn _]. by apply (Hcn n).
  - intros u v k l Hl. apply Hderef. destruct Hhl as [_ Hce].
    by apply (Hce u v k).
Qed.

(** C2. Calling [left_full_merge(g, h)] a second time leaves the store and
    [g] exactly as the first call left them: no node, no edge key and no
    data dictionary is added or changed. *)
Theorem left_full_merge_twice σ g h :
  wf σ g = true → wf σ h = true →
  ∃ σ1 g1, left_full_merge σ g h = Ok (σ1, g1) ∧
    left_full_merge σ1 g1 h = Ok (σ1, g1).
Proof.
  intros Hg Hh.
  pose proof (wf_consistent _ _ Hg) as Hgc. pose proof (wf_closed _ _ Hg) as Hgl.
  pose proof (wf_consistent _ _ Hh) as Hhc. pose proof (wf_closed _ _ Hh) as Hhl.
  destruct (left_full_merge_spec σ g h Hhc Hhl Hgc Hgl)
    as (σ1 & g1 & Heq & Hc1 & Hcl1 & (Hp & _) & Hsub & Hall & _).
  exists σ1, g1. split; [done|].
  by apply (left_full_merge_again σ).
Qed.

(** C8. When [g] and [h] both have the node [n], with different
    attributes, [left_full_merge(g, h)] returns without an exception, [g]
    keeps its own dictionary for [n] with the contents it had, and the
    warning log of [g] is as before. *)
Theorem left_full_merge_node_conflict σ g h n lg lh :
  wf σ g = true → wf σ h = true →
  node g !! n = Some lg → node h !! n = Some lh →
  deref σ lg ≠ deref σ lh →
  ∃ σ' g', left_full_merge σ g h = Ok (σ', g') ∧
    node g' !! n = Some lg ∧
    deref σ' lg = deref σ lg ∧
    deref σ' lg ≠ deref σ' lh ∧
    warnings g' = warnings g.
Proof.
  intros Hg Hh Hlg Hlh Hne.
  pose proof (wf_consistent _ _ Hg) as Hgc. pose proof (wf_closed _ _ Hg) as Hgl.
  pose proof (wf_consistent _ _ Hh) as Hhc. pose proof (wf_closed _ _ Hh) as Hhl.
  destruct (left_full_merge_spec σ g h Hhc Hhl Hgc Hgl)
    as (σ' & g' & Heq & _ & _ & (Hp & Hn & _ & _ & Hw & _) & _).
  simpl in *. exists σ', g'. split; [done|].
  assert (deref σ' lg = deref σ lg) as Hdg.
  { apply deref_prefix; [done|]. destruct Hgl as [Hcn _]. by apply (Hcn n). }
  assert (deref σ' lh = deref σ lh) as Hdh.
  { apply deref_prefix; [done|]. destruct Hhl as [Hcn _]. by apply (Hcn n). }
  split_and!; [|done| |done].
  - by apply (lookup_weaken (node g)).
  - by rewrite Hdg, Hdh.
Qed.

(** ** Counting edges and nodes *)

Lemma edges_keyed_Some g u v k l :
  edge g u v k = Some l → edges_keyed g u v k = [(u, v, k, l)].
Proof.
  intros Hl. unfold edges_keyed. apply filter_unique.
  - apply NoDup_nx_edges_iter.
  - by apply elem_of_nx_edges_iter.
  - done.
  - intros [[[u1 v1] k1] l1] Hin%elem_of_nx_edges_iter Heq.
    simpl in Heq. simplify_eq. congruence.
Qed.

Lemma has_edge_key g u v k :
  has_edge g u v (Some k) = bool_decide (is_Some (edge g u v k)).
Proof.
  unfold has_edge, edge. destruct (adj g !! u) as [nbrs|]; simpl.
  - destruct (nbrs !! v) as [keydict|]; simpl.
    + apply bool_decide_ext, elem_of_dom.
    + done.
  - done.
Qed.

(** C3. For an unqualified relation [r] with key [key]: the call
    [add_unqualified_edge(u, v, r)] returns and leaves exactly one edge
    with that key between [u] and [v]; if there was none it is a new edge
    with the attributes [{RELATION: r, ANNOTATIONS: {}}], and if there was
    one the call changes nothing; a second call changes nothing; and any
    number of calls in a row leaves what the first call left. *)
Theorem add_unqualified_edge_unique (RELATION ANNOTATIONS : string)
    (unqualified_edge_code : gmap string Z) σ g u v (r : string) k :
  wf σ g = true → unqualified_edge_code !! r = Some k →
  ∃ σ1 g1 l,
    add_unqualified_edge RELATION ANNOTATIONS unqualified_edge_code u v r (σ, g)
      = Ok (σ1, g1) ∧
    edges_keyed g1 u v k = [(u, v, k, l)] ∧
    (edge g u v k = None →
       deref σ1 l = <[ANNOTATIONS := VDict ∅]> (<[RELATION := VStr r]> ∅)) ∧
    (is_Some (edge g u v k) → (σ1, g1) = (σ, g)) ∧
    add_unqualified_edge RELATION ANNOTATIONS unqualified_edge_code u v r
      (σ1, g1) = Ok (σ1, g1) ∧
    (∀ i : nat,
       repeat_call
         (add_unqualified_edge RELATION ANNOTATIONS unqualified_edge_code u v r)
         (S i) (σ, g) = Ok (σ1, g1)).
Proof.
  intros Hg Hk.
  pose proof (wf_consistent _ _ Hg) as Hgc. pose proof (wf_closed _ _ Hg) as Hgl.
  assert (∀ s l, edge s.2 u v k = Some l →
          add_unqualified_edge RELATION ANNOTATIONS unqualified_edge_code
            u v r s = Ok s) as Hnoop.
  { intros s l Hl. unfold add_unqualified_edge, getitem. rewrite Hk. simpl.
    rewrite has_edge_key, bool_decide_eq_true_2 by eauto. done. }
  assert (∃ σ1 g1 l,
    add_unqualified_edge RELATION ANNOTATIONS unqualified_edge_code u v r (σ, g)
      = Ok (σ1, g1) ∧ edge g1 u v k = Some l ∧
    (edge g u v k = None →
       deref σ1 l = <[ANNOTATIONS := VDict ∅]> (<[RELATION := VStr r]> ∅)) ∧
    (is_Some (edge g u v k) → (σ1, g1) = (σ, g)))
    as (σ1 & g1 & l & Hfirst & Hl & Hnew & Hold).
  { destruct (edge g u v k) as [l|] eqn:Hedge.
    - exists σ, g, l. split_and!; [|done..]. by apply (Hnoop (σ, g) l).
    - unfold add_unqualified_edge, getitem. rewrite Hk. simpl.
      rewrite has_edge_key, bool_decide_eq_false_2 by
        (rewrite Hedge; by intros [? ?]).
      simpl.
      destruct (add_edge_new σ g u v (Some k) None
                  (<[ANNOTATIONS := VDict ∅]> (<[RELATION := VStr r]> ∅))
                  Hgc Hgl I)
        as (σ1 & g1 & k' & l & -> & _ & _ & _ & _ & He & _ & _ & Hcont & -> & _).
      { by intros ? [= <-]. }
      exists σ1, g1, l. split_and!; [done| |done|by intros [? ?]].
      rewrite He. by rewrite decide_True. }
  exists σ1, g1, l. split_and!; try done.
  - by apply edges_keyed_Some.
  - by apply (Hnoop (σ1, g1) l).
  - intros i. simpl. rewrite Hfirst. simpl. apply repeat_call_fixed.
    by apply (Hnoop (σ1, g1) l).
Qed.

(** C7. [add_simple_node(function, namespace, name)] returns and leaves
    exactly one node with that key; when the key was there already the
    call changes nothing, so a second call changes nothing, also when a
    label and a description were set in between. *)
Theorem add_simple_node_idempotent (FUNCTION NAMESPACE NAME : string)
    (LABEL DESCRIPTION : string) (tuple3 : string → string → string → N)
    σ g (function namespace name : string) :
  wf σ g = true →
  ∃ σ1 g1 l,
    add_simple_node FUNCTION NAMESPACE NAME tuple3 function namespace name
      (σ, g) = Ok (σ1, g1) ∧
    node g1 !! tuple3 function namespace name = Some l ∧
    filter (λ m : N, m = tuple3 function namespace name)
      (nodes_iter σ1 g1 false ∅ : list N) = [tuple3 function namespace name] ∧
    (node g !! tuple3 function namespace name = None →
       deref σ1 l =
         <[NAME := VStr name]>
           (<[NAMESPACE := VStr namespace]>
              (<[FUNCTION := VStr function]> ∅))) ∧
    (is_Some (node g !! tuple3 function namespace name) →
       (σ1, g1) = (σ, g)) ∧
    add_simple_node FUNCTION NAMESPACE NAME tuple3 function namespace name
      (σ1, g1) = Ok (σ1, g1) ∧
    (∀ label description, ∃ σ2 σ3,
       set_node_label LABEL (tuple3 function namespace name) label (σ1, g1)
         = Ok (σ2, g1) ∧
       set_node_description DESCRIPTION (tuple3 function namespace name)
         description (σ2, g1) = Ok (σ3, g1) ∧
       add_simple_node FUNCTION NAMESPACE NAME tuple3 function namespace name
         (σ3, g1) = Ok (σ3, g1)).
Proof.
  intros Hg. set (n := tuple3 function namespace name).
  pose proof (wf_consistent _ _ Hg) as Hgc. pose proof (wf_closed _ _ Hg) as Hgl.
  assert (∀ s, is_Some (node s.2 !! n) →
          add_simple_node FUNCTION NAMESPACE NAME tuple3 function namespace
            name s = Ok s) as Hnoop.
  { intros s Hn. unfold add_simple_node, contains. fold n.
    by rewrite bool_decide_eq_true_2 by (by apply elem_of_dom). }
  assert (∃ σ1 g1 l,
    add_simple_node FUNCTION NAMESPACE NAME tuple3 function namespace name
      (σ, g) = Ok (σ1, g1) ∧ node g1 !! n = Some l ∧
    (node g !! n = None →
       deref σ1 l =
         <[NAME := VStr name]>
           (<[NAMESPACE := VStr namespace]>
              (<[FUNCTION := VStr function]> ∅))) ∧
    (is_Some (node g !! n) → (σ1, g1) = (σ, g)))
    as (σ1 & g1 & l & Hfirst & Hl & Hnew & Hold).
  { destruct (node g !! n) as [l|] eqn:Hnode.
    - exists σ, g, l. split_and!; [|done..]. apply (Hnoop (σ, g)).
      simpl. by rewrite Hnode.
    - unfold add_simple_node, contains. fold n. simpl.
      rewrite bool_decide_eq_false_2 by (by apply not_elem_of_dom). simpl.
      destruct (add_node_new σ g n None
                  (<[NAME := VStr name]>
                     (<[NAMESPACE := VStr namespace]>
                        (<[FUNCTION := VStr function]> ∅))) Hgc Hgl I Hnode)
        as (σ1 & g1 & a & -> & _ & _ & _ & Hn1 & _ & _ & -> & ->).
      exists (σ ++ [<[NAME := VStr name]>
                     (<[NAMESPACE := VStr namespace]>
                        (<[FUNCTION := VStr function]> ∅))]), g1, (length σ).
      split_and!; [done| | |by intros [? ?]].
      + by rewrite Hn1, lookup_insert_eq.
      + intros _. apply deref_alloc. }
  exists σ1, g1, l. split_and!; try done.
  - apply filter_unique; [| |done|done].
    + rewrite nodes_iter_all. apply NoDup_fst_map_to_list.
    + apply elem_of_nodes_iter_all, elem_of_dom. eauto.
  - apply (Hnoop (σ1, g1)). simpl. eauto.
  - intros label description. unfold set_node_label, set_node_description.
    simpl. unfold getitem. rewrite Hl. simpl. eexists _, _.
    split_and!; [done..|]. apply (Hnoop (_, g1)). simpl. eauto.
Qed.

(** [nodes_iter] and [edges_iter] as a filter followed by a projection. *)
Lemma nodes_iter_filter σ g data (kwargs : attrs) :
  nodes_iter σ g data kwargs =
  node_yield data <$>
    filter (λ nd, subdict_matches (deref σ nd.2) kwargs = true)
      (nx_nodes_iter g).
Proof.
  unfold nodes_iter. generalize (nx_nodes_iter g).
  induction l as [|nd xs IH]; csimpl; [done|].
  destruct (subdict_matches (deref σ nd.2) kwargs) eqn:Hm; simpl.
  - rewrite filter_cons_True by done. csimpl. by rewrite IH.
  - rewrite filter_cons_False by (by rewrite Hm). by rewrite IH.
Qed.

Lemma edges_iter_filter σ g nbunch data keys (kwargs : attrs) :
  edges_iter σ g nbunch data keys kwargs =
  edge_yield data keys <$>
    filter (λ e, subdict_matches (deref σ e.2) kwargs = true)
      (nx_edges_iter g nbunch).
Proof.
  unfold edges_iter. generalize (nx_edges_iter g nbunch).
  induction l as [|e xs IH]; csimpl; [done|].
  destruct (subdict_matches (deref σ e.2) kwargs) eqn:Hm; simpl.
  - rewrite filter_cons_True by done. csimpl. by rewrite IH.
  - rewrite filter_cons_False by (by rewrite Hm). by rewrite IH.
Qed.

Lemma edge_yield_all (xs : list (N * N * Z * loc)) :
  edge_yield true true <$> xs = xs.
Proof.
  induction xs as [|[[[u v] k] d] xs IH]; [done|]. by rewrite fmap_cons, IH.
Qed.

(** C5. With the sub-dictionary match of the spec, [nodes_iter] yields
    each node whose attributes include the constraints, once, and no other
    node; [edges_iter] yields each edge whose attributes include the
    constraints, once, and no other edge; the other settings of [data] and
    [keys] yield the same sequence with fewer components; with no
    constraints every node and every edge is yielded. *)
Theorem filtered_iteration σ g (kwargs : attrs) :
  (∀ n, n ∈ (nodes_iter σ g false kwargs : list N) ↔
     ∃ l, node g !! n = Some l ∧ kwargs ⊆ deref σ l) ∧
  (∀ n l, (n, l) ∈ (nodes_iter σ g true kwargs : list (N * loc)) ↔
     node g !! n = Some l ∧ kwargs ⊆ deref σ l) ∧
  NoDup (nodes_iter σ g false kwargs : list N) ∧
  NoDup (nodes_iter σ g true kwargs : list (N * loc)) ∧
  (∀ u v k l,
     (u, v, k, l) ∈ (edges_iter σ g None true true kwargs
                       : list (N * N * Z * loc)) ↔
     edge g u v k = Some l ∧ kwargs ⊆ deref σ l) ∧
  NoDup (edges_iter σ g None true true kwargs : list (N * N * Z * loc)) ∧
  (∀ data keys,
     edges_iter σ g None data keys kwargs =
     edge_yield data keys <$> (edges_iter σ g None true true kwargs
                                 : list (N * N * Z * loc))) ∧
  (∀ n, n ∈ (nodes_iter σ g false ∅ : list N) ↔ n ∈ dom (node g)) ∧
  (∀ u v k l,
     (u, v, k, l) ∈ (edges_iter σ g None true true ∅
                       : list (N * N * Z * loc)) ↔
     edge g u v k = Some l).
Proof.
  split_and!.
  - intros n. rewrite nodes_iter_filter, list_elem_of_fmap. split.
    + intros ([m l] & -> & [Hm Hin]%list_elem_of_filter).
      apply elem_of_map_to_list in Hin. exists l.
      split; [done|]. by apply subdict_matches_spec.
    + intros (l & Hl & Hsub). exists (n, l). split; [done|].
      apply list_elem_of_filter. split; [by apply subdict_matches_spec|].
      by apply elem_of_map_to_list.
  - intros n l. rewrite nodes_iter_filter. simpl. rewrite list_fmap_id.
    rewrite list_elem_of_filter. unfold nx_nodes_iter.
    rewrite elem_of_map_to_list, subdict_matches_spec. simpl. tauto.
  - rewrite nodes_iter_filter. eapply sublist_NoDup.
    + apply (NoDup_fst_map_to_list (node g)).
    + apply fmap_sublist, sublist_filter.
  - rewrite nodes_iter_filter. simpl. rewrite list_fmap_id.
    apply NoDup_filter, NoDup_map_to_list.
  - intros u v k l. rewrite edges_iter_filter, edge_yield_all.
    rewrite list_elem_of_filter, elem_of_nx_edges_iter, subdict_matches_spec.
    simpl. tauto.
  - rewrite edges_iter_filter, edge_yield_all.
    apply NoDup_filter, NoDup_nx_edges_iter.
  - intros data keys. by rewrite !edges_iter_filter, edge_yield_all.
  - intros n. apply elem_of_nodes_iter_all.
  - intros u v k l. rewrite edges_iter_all. apply elem_of_nx_edges_iter.
Qed.

(** ** Edge attributes *)

Lemma edge_data_edge g u v k :
  edge_data g u v k =
  match edge g u v k with Some l => Ok l | None => Raise KeyError end.
Proof.
  unfold edge_data, edge, getitem. destruct (adj g !! u) as [nbrs|]; [|done].
  simpl. by destruct (nbrs !! v).
Qed.

(** C6. When there is no edge with key [k] between [u] and [v], each of
    [get_edge_citation], [get_edge_evidence] and [get_edge_annotations]
    raises [KeyError], which is a [LookupError]; when there is one, each
    returns the value of its attribute in the data dictionary of the
    edge. *)
Theorem get_edge_attributes (CITATION EVIDENCE ANNOTATIONS : string) σ g u v k :
  (edge g u v k = None →
     get_edge_citation CITATION σ g u v k = Raise KeyError ∧
     get_edge_evidence EVIDENCE σ g u v k = Raise KeyError ∧
     get_edge_annotations ANNOTATIONS σ g u v k = Raise KeyError ∧
     is_LookupError KeyError = true) ∧
  (∀ l (x : value), edge g u v k = Some l →
     (deref σ l !! CITATION = Some x →
        get_edge_citation CITATION σ g u v k = Ok x) ∧
     (deref σ l !! EVIDENCE = Some x →
        get_edge_evidence EVIDENCE σ g u v k = Ok x) ∧
     (deref σ l !! ANNOTATIONS = Some x →
        get_edge_annotations ANNOTATIONS σ g u v k = Ok x)).
Proof.
  unfold get_edge_citation, get_edge_evidence, get_edge_annotations.
  rewrite edge_data_edge. split.
  - by intros ->.
  - intros l x ->. simpl. unfold getitem. by split_and!; intros ->.
Qed.

(** ** Construction and warnings *)

Lemma init_key_lookup (key : string) (x : value) g (key' : string) :
  graph (init_key key x g) !! key' =
  match graph g !! key' with
  | Some y => Some y
  | None => if decide (key = key') then Some x else None
  end.
Proof.
  unfold init_key. destruct (decide (key = key')) as [<-|Hne].
  - destruct (graph g !! key) eqn:Hk; simpl; [by rewrite Hk|].
    by rewrite lookup_insert_eq.
  - destruct (graph g !! key) eqn:Hk; simpl.
    + by destruct (graph g !! key').
    + rewrite lookup_insert_ne by done. by destruct (graph g !! key').
Qed.

Lemma init_key_warnings (key : string) (x : value) g :
  warnings (init_key key x g) = warnings g.
Proof. unfold init_key. by destruct (graph g !! key). Qed.

(** C9. After [BELGraph()], the document metadata, the three namespace
    registries, the three annotation registries and the annotation-list
    registry are each an empty dictionary, and the warning log is the
    empty list.  The key of the version entry must differ from the keys of
    the registries that are set after it. *)
Theorem BELGraph_init_registries
    (GRAPH_METADATA GRAPH_PYBEL_VERSION : string)
    (GRAPH_NAMESPACE_URL GRAPH_NAMESPACE_OWL GRAPH_NAMESPACE_PATTERN : string)
    (GRAPH_ANNOTATION_URL GRAPH_ANNOTATION_OWL GRAPH_ANNOTATION_PATTERN : string)
    (GRAPH_ANNOTATION_LIST get_version : string) :
  GRAPH_PYBEL_VERSION ∉
    [GRAPH_NAMESPACE_URL; GRAPH_NAMESPACE_OWL; GRAPH_NAMESPACE_PATTERN;
     GRAPH_ANNOTATION_URL; GRAPH_ANNOTATION_OWL; GRAPH_ANNOTATION_PATTERN;
     GRAPH_ANNOTATION_LIST] →
  let g : BELGraph (N:=N) (Exc:=Exc) :=
    BELGraph_init GRAPH_METADATA GRAPH_PYBEL_VERSION GRAPH_NAMESPACE_URL
      GRAPH_NAMESPACE_OWL GRAPH_NAMESPACE_PATTERN GRAPH_ANNOTATION_URL
      GRAPH_ANNOTATION_OWL GRAPH_ANNOTATION_PATTERN GRAPH_ANNOTATION_LIST
      get_version ∅ in
  document GRAPH_METADATA g = Ok (VDict ∅) ∧
  namespace_url GRAPH_NAMESPACE_URL g = Ok (VDict ∅) ∧
  namespace_owl GRAPH_NAMESPACE_OWL g = Ok (VDict ∅) ∧
  namespace_pattern GRAPH_NAMESPACE_PATTERN g = Ok (VDict ∅) ∧
  annotation_url GRAPH_ANNOTATION_URL g = Ok (VDict ∅) ∧
  annotation_owl GRAPH_ANNOTATION_OWL g = Ok (VDict ∅) ∧
  annotation_pattern GRAPH_ANNOTATION_PATTERN g = Ok (VDict ∅) ∧
  annotation_list GRAPH_ANNOTATION_LIST g = Ok (VDict ∅) ∧
  warnings g = [].
Proof.
  intros Hver g.
  repeat (apply not_elem_of_cons in Hver as [? Hver]).
  unfold document, namespace_url, namespace_owl, namespace_pattern,
    annotation_url, annotation_owl, annotation_pattern, annotation_list,
    getitem.
  subst g. unfold BELGraph_init. cbn [graph warnings].
  rewrite !init_key_lookup. unfold set_warnings. cbn [graph].
  rewrite (left_id_L ∅ (∪)), !lookup_empty.
  split_and!; [repeat case_decide; simplify_eq; done..|].
  by rewrite !init_key_warnings.
Qed.

(** C10. [add_warning] appends one entry to the warning log and leaves the
    rest of the graph and every dictionary of the store as they are.  The
    fourth component of the entry is the context that was passed, or, when
    none was passed, a dictionary that did not exist before the call and
    is empty; when the contexts of the log and the one passed are
    dictionaries of the store, so are all contexts of the log afterwards. *)
Theorem add_warning_appends (line_number : Z) (line : string) (exception : Exc)
    (context : option loc) σ g :
  ∃ σ' g' c,
    add_warning line_number line exception context (σ, g) = (σ', g') ∧
    warnings g' = warnings g ++ [(line_number, line, exception, c)] ∧
    graph g' = graph g ∧ node g' = node g ∧ adj g' = adj g ∧
    has_singleton_terms g' = has_singleton_terms g ∧
    (∀ l, l < length σ → σ' !! l = σ !! l) ∧
    match context with
    | Some c0 => c = c0 ∧ σ' = σ
    | None => σ !! c = None ∧ σ' !! c = Some ∅ ∧ length σ' = S (length σ)
    end ∧
    (Forall (λ w, w.2 < length σ) (warnings g) →
     (∀ c0, context = Some c0 → c0 < length σ) →
     Forall (λ w, w.2 < length σ') (warnings g')).
Proof.
  unfold add_warning. destruct context as [c0|]; simpl.
  - exists σ, (set_warnings (λ w, w ++ [(line_number, line, exception, c0)]) g), c0.
    split_and!; try done. intros Hall Hc0. apply Forall_app. split; [done|].
    apply Forall_singleton. simpl. by apply Hc0.
  - exists (σ ++ [∅]),
      (set_warnings (λ w, w ++ [(line_number, line, exception, length σ)]) g),
      (length σ).
    split_and!; try done.
    + intros l Hl. by apply lookup_app_l.
    + by apply lookup_ge_None.
    + rewrite lookup_app_r by lia. by rewrite Nat.sub_diag.
    + rewrite length_app. simpl. lia.
    + intros Hall _. rewrite length_app. simpl. apply Forall_app. split.
      * eapply Forall_impl; [done|]. simpl. intros; lia.
      * apply Forall_singleton. simpl. lia.
Qed.

End graph_facts.

(** ** The date sanitizer *)

Lemma is_digit_digit_char n : n < 10 → is_digit (digit_char n) = true.
Proof.
  intros Hn. do 10 (destruct n as [|n]; [reflexivity|]). lia.
Qed.

Lemma is_iso_date_format y m d : is_iso_date (format_date y m d) = true.
Proof.
  unfold is_iso_date, format_date.
  rewrite String.list_ascii_of_string_of_list_ascii.
  unfold digits4, digits2. cbn -[Nat.div Nat.modulo digit_char is_digit].
  rewrite !is_digit_digit_char by (apply Nat.mod_upper_bound; lia).
  done.
Qed.

(** C4. With the sanitizer modelled from the spec: for every string the
    result is the failure sentinel or a date [YYYY-MM-DD] of the calendar,
    and the eight inputs of the tests give the results the tests expect. *)
Theorem sanitize_date_total :
  (∀ s, sanitize_date s = None ∨
        ∃ y m d, sanitize_date s = Some (format_date y m d) ∧
          y < 100 * 100 ∧ 1 ≤ m ≤ 12 ∧ 1 ≤ d ≤ days_in_month y m ∧
          is_iso_date (format_date y m d) = true) ∧
  sanitize_date "2012 Dec 19" = Some "2012-12-19"%string ∧
  sanitize_date "2012 Dec" = Some "2012-12-01"%string ∧
  sanitize_date "2012" = Some "2012-01-01"%string ∧
  sanitize_date "2012 Oct-Dec" = Some "2012-10-01"%string ∧
  sanitize_date "2012 Spring" = Some "2012-03-01"%string ∧
  sanitize_date "2012 Dec 12-15" = Some "2012-12-12"%string ∧
  sanitize_date "2005 Jan 29-Feb 4" = Some "2005-01-29"%string ∧
  sanitize_date "2012 Early Spring" = None.
Proof.
  split; [|by vm_compute].
  intros s. unfold sanitize_date.
  destruct (parse_date s) as [[[y m] d]|]; simpl; [|by left].
  destruct (valid_date y m d) eqn:Hv; [|by left].
  right. exists y, m, d. split; [done|].
  unfold valid_date in Hv. rewrite !andb_true_iff in Hv.
  destruct Hv as [[[[Hy Hm1] Hm2] Hd1] Hd2].
  apply Nat.ltb_lt in Hy. apply Nat.leb_le in Hm1, Hm2, Hd1, Hd2.
  split_and!; try done. apply is_iso_date_format.
Qed.

(** * More about the module *)

Section graph_more.
Context {N : Type} `{Countable N} {Exc : Type}.
Implicit Types (g h : BELGraph (N:=N) (Exc:=Exc)) (σ : heap) (u v n : N).
Implicit Types (k : Z) (key : option Z) (l d a : loc) (attr : attrs).
Implicit Types (s : heap * BELGraph (N:=N) (Exc:=Exc)).

Local Arguments add_node : simpl never.
Local Arguments add_edge : simpl never.

Lemma wf_intro σ g : consistent g → closed σ g → wf σ g = true.
Proof.
  intros Hc [Hcn Hce]. unfold wf.
  rewrite !andb_true_iff, !bool_decide_eq_true. split_and!; [done| |].
  - intros n l Hl. by apply (Hcn n).
  - intros u nbrs Hu v keydict Hv k l Hk. apply (Hce u v k).
    apply edge_Some. eauto.
Qed.

Lemma targets_are_nodes_spec g :
  targets_are_nodes g = true ↔
  ∀ u v k l, edge g u v k = Some l → v ∈ dom (node g).
Proof.
  unfold targets_are_nodes. rewrite forallb_forall. split.
  - intros Hall u v k l Hl%elem_of_nx_edges_iter%list_elem_of_In.
    apply Hall in Hl. by apply bool_decide_eq_true in Hl.
  - intros Hall [[[u v] k] l] Hl%list_elem_of_In%elem_of_nx_edges_iter.
    apply bool_decide_eq_true. by apply (Hall u v k l).
Qed.

Lemma subgraph_of_spec h g :
  subgraph_of h g = true ↔
  dom (node h) ⊆ dom (node g) ∧
  ∀ u v k l, edge h u v k = Some l → edge g u v k = Some l.
Proof.
  unfold subgraph_of.
  rewrite andb_true_iff, bool_decide_eq_true, forallb_forall.
  apply and_iff_compat_l. split.
  - intros Hall u v k l Hl%elem_of_nx_edges_iter%list_elem_of_In.
    apply Hall in Hl. by apply bool_decide_eq_true in Hl.
  - intros Hall [[[u v] k] l] Hl%list_elem_of_In%elem_of_nx_edges_iter.
    apply bool_decide_eq_true. by apply (Hall u v k l).
Qed.

(** ** Where the nodes and edges of a merged graph come from *)

Section merge_origin.
Variables (σ0 : heap) (g0 h : BELGraph (N:=N) (Exc:=Exc)).
Hypothesis Hh_consistent : consistent h.
Hypothesis Hh_closed : closed σ0 h.

Lemma merge_node_step_node n s s' :
  merge_inv σ0 g0 h s → merge_node h n s = Ok s' →
  ∀ m l, node s'.2 !! m = Some l →
    node s.2 !! m = Some l ∨ (node s.2 !! m = None ∧ node h !! m = Some l).
Proof.
  destruct s as [σ g]. intros (Hc & Hcl & Hp & _).
  unfold merge_node, contains. simpl in *. case_bool_decide as Hn; simpl.
  - intros [= <-] m l Hl. by left.
  - apply not_elem_of_dom in Hn. unfold getitem.
    destruct (node h !! n) as [a|] eqn:Ha; simpl; [|done].
    assert (a < length σ) as Hlen.
    { destruct Hh_closed as [Hcn _]. apply Hcn in Ha.
      apply prefix_length in Hp. lia. }
    destruct (add_node_new σ g n (Some a) ∅ Hc Hcl) as
      (σ' & g' & a' & -> & _ & _ & _ & Hnode & _ & _ & -> & ->); [done..|].
    intros [= <-] m l. simpl. rewrite Hnode.
    destruct (decide (m = n)) as [->|Hm].
    + rewrite lookup_insert_eq. intros [= <-]. by right.
    + rewrite lookup_insert_ne by done. by left.
Qed.

Lemma merge_edge_step_origin u v k d s s' :
  edge h u v k = Some d → merge_inv σ0 g0 h s →
  dom (node h) ⊆ dom (node s.2) →
  merge_edge (u, v, k, d) s = Ok s' →
  (∀ u1 v1 k1 l1, edge s'.2 u1 v1 k1 = Some l1 →
     edge s.2 u1 v1 k1 = Some l1 ∨
     (u1 = u ∧ v1 = v ∧ length s.1 ≤ l1 ∧ deref s'.1 l1 = deref σ0 d ∧
      if bool_decide (k < 0)%Z then k1 = k else (0 ≤ k1)%Z)) ∧
  (∀ m l, node s'.2 !! m = Some l →
     node s.2 !! m = Some l ∨
     (node s.2 !! m = None ∧ m = v ∧ length s.1 ≤ l ∧ deref s'.1 l = ∅)).
Proof.
  destruct s as [σ g]. intros Hd (Hc & Hcl & Hp & _) Hsub. simpl in *.
  assert (d < length σ0) as Hd0.
  { destruct Hh_closed as [_ Hce]. by apply (Hce u v k). }
  assert (d < length σ) as Hdlen.
  { apply prefix_length in Hp. lia. }
  assert (deref σ d = deref σ0 d) as Hdd by (by apply deref_prefix).
  assert (u ∈ dom (node g)) as Hu.
  { apply Hsub. rewrite Hh_consistent.
    apply edge_Some in Hd as (? & ? & Hu & _). by apply elem_of_dom. }
  assert (is_Some (adj g !! u)) as [nbrs Hnbrs].
  { apply elem_of_dom. by rewrite <- Hc. }
  set (post := λ s1 : heap * BELGraph (N:=N) (Exc:=Exc),
    (∀ u1 v1 k1 l1, edge s1.2 u1 v1 k1 = Some l1 →
       edge g u1 v1 k1 = Some l1 ∨
       (u1 = u ∧ v1 = v ∧ length σ ≤ l1 ∧ deref s1.1 l1 = deref σ0 d ∧
        if bool_decide (k < 0)%Z then k1 = k else (0 ≤ k1)%Z)) ∧
    (∀ m l, node s1.2 !! m = Some l →
       node g !! m = Some l ∨
       (node g !! m = None ∧ m = v ∧ length σ ≤ l ∧ deref s1.1 l = ∅))).
  assert (post (σ, g)) as Hskip.
  { split; intros; by left. }
  assert (∀ key, (∀ k1, key = Some k1 → k1 = k ∧ edge g u v k = None) →
          (key = None → ¬ (k < 0)%Z) →
          post (add_edge u v key (Some d) ∅ (σ, g))) as Hadd.
  { intros key Hkey Hqual.
    destruct (add_edge_new σ g u v key (Some d) ∅ Hc Hcl) as
      (σ' & g' & k' & l' & -> & _ & _ & _ & _ & He & Hfresh & _
         & Hcont & Hk' & _ & Hnodes); [done| |].
    { intros k1 Hk1. destruct (Hkey k1 Hk1) as [-> ?]. done. }
    split; simpl.
    - intros u1 v1 k1 l1. rewrite He. case_decide as Heq; [|by left].
      destruct Heq as (-> & -> & ->). intros [= <-]. right.
      split_and!; [done..|by rewrite Hcont|].
      destruct key as [k1|].
      + destruct (Hkey k1 eq_refl) as [-> _]. subst k'.
        case_bool_decide; [done|lia].
      + rewrite bool_decide_eq_false_2 by (by apply Hqual). done.
    - intros m l Hl. destruct (Hnodes m l Hl) as [Hold|(Hnone & Hm & Hge & Hemp)];
        [by left|]. right. split_and!; [done| |done..].
      destruct Hm as [-> | ->]; [|done].
      apply not_elem_of_dom in Hnone. done. }
  unfold merge_edge, getitem. simpl. rewrite Hnbrs. simpl.
  assert (∀ k1, edge g u v k1 = nbrs !! v ≫= λ keydict, keydict !! k1) as Hedge.
  { intros k1. unfold edge. by rewrite Hnbrs. }
  intros Hres.
  enough (post s') as [? ?] by done.
  revert Hres. case_bool_decide as Hneg.
  - destruct (nbrs !! v) as [keydict|] eqn:Hv.
    + case_bool_decide as Hk; intros [= <-]; [|done].
      apply Hadd; [|done]. intros k1 [= <-]. split; [done|].
      rewrite Hedge. simpl. by apply not_elem_of_dom.
    + intros [= <-]. apply Hadd; [|done].
      intros k1 [= <-]. split; [done|]. by rewrite Hedge.
  - destruct (nbrs !! v) as [keydict|] eqn:Hv.
    + destruct (existsb _ _); intros [= <-]; [done|]. by apply Hadd.
    + intros [= <-]. by apply Hadd.
Qed.

(** The origins are kept when the state grows by the nodes and edges that
    one iteration adds. *)
Lemma origin_inv_step s s' :
  (origin_inv σ0 g0 h) s → merge_inv σ0 g0 h s' → extends s s' →
  (∀ u v k l, edge s'.2 u v k = Some l →
     edge s.2 u v k = Some l ∨
     (length s.1 ≤ l ∧
      ∃ k0 d, edge h u v k0 = Some d ∧ deref s'.1 l = deref σ0 d ∧
        if bool_decide (k0 < 0)%Z then k = k0 else (0 ≤ k)%Z)) →
  (∀ m l, node s'.2 !! m = Some l →
     node s.2 !! m = Some l ∨
     (node s.2 !! m = None ∧
      (node h !! m = Some l ∨
       (node h !! m = None ∧ length s.1 ≤ l ∧ deref s'.1 l = ∅ ∧
        ∃ u k d, edge h u m k = Some d)))) →
  (origin_inv σ0 g0 h) s'.
Proof.
  intros ((_ & [Hcn Hce] & Hp0 & _) & Hsub & Heo & Hno) Hinv' Hx He Hn.
  destruct Hx as (Hp & Hnsub & _).
  pose proof (prefix_length _ _ Hp0) as Hlen0.
  split_and!; [done|by etrans| |].
  - intros u v k l Hl. destruct (He u v k l Hl) as [Hold|(Hge & Hnew)].
    + destruct (Heo u v k l Hold) as [?|(? & k0 & d & ? & Hd & ?)]; [by left|].
      right. split; [done|]. exists k0, d. split_and!; [done| |done].
      rewrite <- Hd. apply deref_prefix; [done|]. by apply (Hce u v k).
    + right. split; [lia|done].
  - intros m l Hl. destruct (Hn m l Hl) as [Hold|(Hnone & Hnew)].
    + destruct (Hno m l Hold) as [?|(? & [?|(? & ? & Hd & ?)])];
        [by left|right; split; [done|by left]|].
      right. split; [done|]. right. split_and!; [done..| |done].
      rewrite <- Hd. apply deref_prefix; [done|]. by apply (Hcn m).
    + right. split.
      { destruct (node g0 !! m) as [l0|] eqn:Hg0; [|done].
        apply (lookup_weaken _ _ _ _ Hg0) in Hsub. congruence. }
      destruct Hnew as [?|(? & ? & ? & ?)]; [by left|].
      right. split_and!; [done|lia|done..].
Qed.

Lemma left_full_merge_origin :
  consistent g0 → closed σ0 g0 →
  ∃ σ' g', left_full_merge σ0 g0 h = Ok (σ', g') ∧
    consistent g' ∧ closed σ' g' ∧ extends (σ0, g0) (σ', g') ∧
    edge_origin σ0 g0 h (σ', g') ∧ node_origin σ0 g0 h (σ', g').
Proof.
  intros Hc Hcl. unfold left_full_merge.
  assert ((origin_inv σ0 g0 h) (σ0, g0)) as Hinit.
  { split_and!; [by apply merge_inv_init|done| |].
    - intros u v k l Hl. by left.
    - intros n l Hl. by left. }
  destruct (for_each_inv (merge_node h) (origin_inv σ0 g0 h) extends
              (λ n s, n ∈ dom (node s.2)) (nodes_iter σ0 h false ∅) (σ0, g0))
    as (s1 & -> & Hs1 & Hx1 & Hall1); try done.
  { intros s1 s2 s3 ? ?. by etrans. }
  { intros n s1 s2 _ (_ & Hn & _) Hin.
    by apply (subseteq_dom (node s1.2) (node s2.2)). }
  { intros n s1 Hn%elem_of_nodes_iter_all Hs1.
    destruct (merge_node_step σ0 g0 h Hh_closed n s1 Hn (proj1 Hs1))
      as (s2 & Heq & Hinv2 & Hx2 & He2 & Hin2).
    exists s2. split_and!; [done| |done..].
    apply (origin_inv_step s1); [done..| |].
    - intros u v k l Hl. left. by rewrite <- He2.
    - intros m l Hl.
      destruct (merge_node_step_node n s1 s2 (proj1 Hs1) Heq m l Hl)
        as [?|[? ?]]; [by left|]. right. split; [done|by left]. }
  simpl.
  assert (dom (node h) ⊆ dom (node s1.2)) as Hsub1.
  { intros n Hn. by apply Hall1, elem_of_nodes_iter_all. }
  rewrite edges_iter_all.
  destruct (for_each_inv merge_edge
              (λ s, (origin_inv σ0 g0 h) s ∧ dom (node h) ⊆ dom (node s.2)) extends
              (λ _ _, True) (nx_edges_iter h None) s1)
    as ([σ' g'] & Heq & [Hs2 _] & Hx2 & _); try done.
  { intros s2 s3 s4 ? ?. by etrans. }
  { intros [[[u v] k] d] s2 Hin%elem_of_nx_edges_iter [Hs2 Hsub2].
    destruct (merge_edge_step σ0 g0 h Hh_consistent Hh_closed u v k d s2
                Hin (proj1 Hs2) Hsub2) as (s3 & Heq & Hinv3 & Hx3 & _).
    destruct (merge_edge_step_origin u v k d s2 s3 Hin (proj1 Hs2) Hsub2 Heq)
      as [He3 Hn3].
    exists s3. split_and!; [done| | |done..].
    - apply (origin_inv_step s2); [done..| |].
      + intros u1 v1 k1 l1 Hl1.
        destruct (He3 u1 v1 k1 l1 Hl1) as [?|(-> & -> & ? & ? & ?)];
          [by left|]. right. split; [done|]. by exists k, d.
      + intros m l Hl.
        destruct (Hn3 m l Hl) as [?|(Hnone & -> & ? & ?)]; [by left|].
        right. split; [done|]. right. split_and!; [|done..|by eauto].
        apply not_elem_of_dom. intros Hv. apply Hsub2 in Hv.
        by apply not_elem_of_dom in Hnone.
    - etrans; [done|]. destruct Hx3 as (_ & Hn & _).
      by apply (subseteq_dom (node s2.2) (node s3.2)). }
  exists σ', g'. split; [done|].
  destruct Hs2 as ((? & ? & _) & _ & ? & ?).
  split_and!; [done..| |done|done]. by etrans.
Qed.

(** What one iteration of the second loop does to the edges: nothing, or
    one new edge between [u] and [v] with the donor's attributes, and a
    qualified one only when no qualified edge between them had these. *)
Lemma merge_edge_step_exact u v k d s s' :
  edge h u v k = Some d → merge_inv σ0 g0 h s →
  dom (node h) ⊆ dom (node s.2) →
  merge_edge (u, v, k, d) s = Ok s' →
  (∀ u1 v1 k1, edge s'.2 u1 v1 k1 = edge s.2 u1 v1 k1) ∨
  (∃ k' l',
     (∀ u1 v1 k1, edge s'.2 u1 v1 k1 =
        if decide (u1 = u ∧ v1 = v ∧ k1 = k') then Some l'
        else edge s.2 u1 v1 k1) ∧
     edge s.2 u v k' = None ∧
     deref s'.1 l' = deref σ0 d ∧
     ((0 ≤ k')%Z → ∀ k2 l2, edge s.2 u v k2 = Some l2 → (0 ≤ k2)%Z →
        deref s.1 l2 ≠ deref σ0 d)).
Proof.
  destruct s as [σ g]. intros Hd (Hc & Hcl & Hp & _) Hsub. simpl in *.
  assert (d < length σ0) as Hd0.
  { destruct Hh_closed as [_ Hce]. by apply (Hce u v k). }
  assert (d < length σ) as Hdlen.
  { apply prefix_length in Hp. lia. }
  assert (deref σ d = deref σ0 d) as Hdd by (by apply deref_prefix).
  assert (is_Some (adj g !! u)) as [nbrs Hnbrs].
  { apply elem_of_dom. rewrite <- Hc. apply Hsub. rewrite Hh_consistent.
    apply edge_Some in Hd as (? & ? & Hu & _). by apply elem_of_dom. }
  set (post := λ s1 : heap * BELGraph (N:=N) (Exc:=Exc),
    (∀ u1 v1 k1, edge s1.2 u1 v1 k1 = edge g u1 v1 k1) ∨
    (∃ k' l',
       (∀ u1 v1 k1, edge s1.2 u1 v1 k1 =
          if decide (u1 = u ∧ v1 = v ∧ k1 = k') then Some l'
          else edge g u1 v1 k1) ∧
       edge g u v k' = None ∧
       deref s1.1 l' = deref σ0 d ∧
       ((0 ≤ k')%Z → ∀ k2 l2, edge g u v k2 = Some l2 → (0 ≤ k2)%Z →
          deref σ l2 ≠ deref σ0 d))).
  assert (∀ key, (∀ k1, key = Some k1 → (k1 < 0)%Z ∧ edge g u v k1 = None) →
          (key = None → ∀ k2 l2, edge g u v k2 = Some l2 → (0 ≤ k2)%Z →
             deref σ l2 ≠ deref σ0 d) →
          post (add_edge u v key (Some d) ∅ (σ, g))) as Hadd.
  { intros key Hkey Hqual.
    destruct (add_edge_new σ g u v key (Some d) ∅ Hc Hcl) as
      (σ' & g' & k' & l' & -> & _ & _ & _ & Hnew & He & _ & _
         & Hcont & Hk' & _); [done| |].
    { intros k1 Hk1. by destruct (Hkey k1 Hk1). }
    right. exists k', l'. simpl. split_and!; [done|done|by rewrite Hcont|].
    intros Hk0. destruct key as [k1|]; [|by apply Hqual].
    destruct (Hkey k1 eq_refl) as [? _]. lia. }
  unfold merge_edge, getitem. simpl. rewrite Hnbrs. simpl.
  assert (∀ k1, edge g u v k1 = nbrs !! v ≫= λ keydict, keydict !! k1) as Hedge.
  { intros k1. unfold edge. by rewrite Hnbrs. }
  intros Hres. enough (post s') by done.
  revert Hres. case_bool_decide as Hneg.
  - destruct (nbrs !! v) as [keydict|] eqn:Hv.
    + case_bool_decide as Hk; intros [= <-]; [|by left].
      apply Hadd; [|done]. intros k1 [= <-]. split; [done|].
      rewrite Hedge. simpl. by apply not_elem_of_dom.
    + intros [= <-]. apply Hadd; [|done].
      intros k1 [= <-]. split; [done|]. by rewrite Hedge.
  - destruct (nbrs !! v) as [keydict|] eqn:Hv.
    + destruct (existsb _ _) eqn:Hex; intros [= <-]; [by left|].
      apply Hadd; [done|]. intros _ k2 l2 Hl2 Hk2 Heq.
      rewrite Hedge in Hl2. simpl in Hl2.
      assert (existsb (λ kd : Z * loc,
                bool_decide (0 ≤ kd.1)%Z
                && bool_decide (deref σ d = deref σ kd.2))
              (map_to_list keydict) = true) as Hex'; [|congruence].
      apply existsb_exists. exists (k2, l2). split.
      * by apply list_elem_of_In, elem_of_map_to_list.
      * simpl. apply andb_true_iff.
        split; apply bool_decide_eq_true; [done|congruence].
    + intros [= <-]. apply Hadd; [done|].
      intros _ k2 l2 Hl2. rewrite Hedge in Hl2. done.
Qed.

Lemma no_new_duplicates_step s s' :
  closed s.1 s.2 → s.1 `prefix_of` s'.1 →
  no_new_duplicates g0 s →
  (∀ u1 v1 k1, edge s'.2 u1 v1 k1 = edge s.2 u1 v1 k1) ∨
  (∃ u v k' l' (x : attrs),
     (∀ u1 v1 k1, edge s'.2 u1 v1 k1 =
        if decide (u1 = u ∧ v1 = v ∧ k1 = k') then Some l'
        else edge s.2 u1 v1 k1) ∧
     edge s.2 u v k' = None ∧
     deref s'.1 l' = x ∧
     ((0 ≤ k')%Z → ∀ k2 l2, edge s.2 u v k2 = Some l2 → (0 ≤ k2)%Z →
        deref s.1 l2 ≠ x)) →
  no_new_duplicates g0 s'.
Proof.
  intros [_ Hce] Hp Hinv Hcase.
  assert (∀ u v k l, edge s.2 u v k = Some l → deref s'.1 l = deref s.1 l)
    as Hderef.
  { intros u v k l Hl. apply deref_prefix; [done|]. by apply (Hce u v k). }
  intros u v k1 l1 k2 l2 Hl1 Hl2 Hk1 Hk2 Hne Heq.
  destruct Hcase as [Hsame|(u0 & v0 & k' & l' & x & He & Hnone & Hx & Hdup)].
  - rewrite Hsame in Hl1, Hl2.
    rewrite (Hderef _ _ _ _ Hl1), (Hderef _ _ _ _ Hl2) in Heq.
    by apply (Hinv u v k1 l1 k2 l2).
  - rewrite He in Hl1, Hl2. revert Hl1 Hl2.
    case_decide as E1; case_decide as E2; intros Hl1 Hl2.
    + destruct E1 as (_ & _ & ->), E2 as (_ & _ & ->). done.
    + destruct E1 as (-> & -> & ->). injection Hl1 as <-.
      rewrite (Hderef _ _ _ _ Hl2), Hx in Heq.
      by destruct (Hdup Hk1 k2 l2 Hl2 Hk2).
    + destruct E2 as (-> & -> & ->). injection Hl2 as <-.
      rewrite (Hderef _ _ _ _ Hl1), Hx in Heq.
      by destruct (Hdup Hk2 k1 l1 Hl1 Hk1).
    + rewrite (Hderef _ _ _ _ Hl1), (Hderef _ _ _ _ Hl2) in Heq.
      by apply (Hinv u v k1 l1 k2 l2).
Qed.

Lemma left_full_merge_dedup :
  consistent g0 → closed σ0 g0 →
  ∃ σ' g', left_full_merge σ0 g0 h = Ok (σ', g') ∧
    no_new_duplicates g0 (σ', g').
Proof.
  intros Hc Hcl. unfold left_full_merge.
  assert (no_new_duplicates g0 (σ0, g0)) as Hinit.
  { intros u v k1 l1 k2 l2 Hl1 Hl2 _ _ _ _. done. }
  destruct (for_each_inv (merge_node h)
              (λ s, merge_inv σ0 g0 h s ∧ no_new_duplicates g0 s) extends
              (λ n s, n ∈ dom (node s.2)) (nodes_iter σ0 h false ∅) (σ0, g0))
    as (s1 & -> & [Hs1 Hd1] & Hx1 & Hall1); try done.
  { intros s1 s2 s3 ? ?. by etrans. }
  { intros n s1 s2 _ (_ & Hn & _) Hin.
    by apply (subseteq_dom (node s1.2) (node s2.2)). }
  { intros n s1 Hn%elem_of_nodes_iter_all [Hs1 Hd1].
    destruct (merge_node_step σ0 g0 h Hh_closed n s1 Hn Hs1)
      as (s2 & Heq & Hinv2 & Hx2 & He2 & Hin2).
    exists s2. split_and!; [done|done| |done..].
    apply (no_new_duplicates_step s1); [apply Hs1|apply Hx2|done|by left]. }
  { split; [by apply merge_inv_init|done]. }
  simpl.
  assert (dom (node h) ⊆ dom (node s1.2)) as Hsub1.
  { intros n Hn. by apply Hall1, elem_of_nodes_iter_all. }
  rewrite edges_iter_all.
  destruct (for_each_inv merge_edge
              (λ s, (merge_inv σ0 g0 h s ∧ no_new_duplicates g0 s) ∧
                    dom (node h) ⊆ dom (node s.2)) extends
              (λ _ _, True) (nx_edges_iter h None) s1)
    as ([σ' g'] & Heq & [[_ Hd2] _] & _); try done.
  { intros s2 s3 s4 ? ?. by etrans. }
  { intros [[[u v] k] d] s2 Hin%elem_of_nx_edges_iter [[Hs2 Hd2] Hsub2].
    destruct (merge_edge_step σ0 g0 h Hh_consistent Hh_closed u v k d s2
                Hin Hs2 Hsub2) as (s3 & Heq & Hinv3 & Hx3 & _).
    exists s3. split_and!; [done|done| | |done..].
    - apply (no_new_duplicates_step s2); [apply Hs2|apply Hx3|done|].
      destruct (merge_edge_step_exact u v k d s2 s3 Hin Hs2 Hsub2 Heq)
        as [?|(k' & l' & ? & ? & ? & ?)]; [by left|].
      right. by exists u, v, k', l', (deref σ0 d).
    - etrans; [done|]. destruct Hx3 as (_ & Hn & _).
      by apply (subseteq_dom (node s2.2) (node s3.2)). }
  by exists σ', g'.
Qed.

End merge_origin.

(** X1. After [left_full_merge(g, h)] every edge of [g] is an edge [g]
    had before, with the same key and the same data dictionary, or it has
    a data dictionary made by the call (one that neither graph had) whose
    contents are the attributes of an edge of [h] between the same nodes;
    the copy of an unqualified edge keeps its key and the copy of a
    qualified edge has a non-negative key. *)
Theorem left_full_merge_edge_sources σ g h :
  wf σ g = true → wf σ h = true →
  ∃ σ' g', left_full_merge σ g h = Ok (σ', g') ∧
    ∀ u v k l, edge g' u v k = Some l →
      edge g u v k = Some l ∨
      (length σ ≤ l ∧
       ∃ k0 d, edge h u v k0 = Some d ∧ deref σ' l = deref σ d ∧
         if bool_decide (k0 < 0)%Z then k = k0 else (0 ≤ k)%Z).
Proof.
  intros Hg Hh.
  destruct (left_full_merge_origin σ g h (wf_consistent _ _ Hh)
              (wf_closed _ _ Hh) (wf_consistent _ _ Hg) (wf_closed _ _ Hg))
    as (σ' & g' & Heq & _ & _ & _ & He & _).
  exists σ', g'. split; [done|]. apply He.
Qed.

(** X2. When the edges of [h] end in nodes of [h], the nodes of [g] after
    [left_full_merge(g, h)] are those of [g] and those of [h]; a node that
    [g] had keeps its attribute dictionary, and a node that only [h] had
    gets the very dictionary that [h] has for it. *)
Theorem left_full_merge_nodes σ g h :
  wf σ g = true → wf σ h = true → targets_are_nodes h = true →
  ∃ σ' g', left_full_merge σ g h = Ok (σ', g') ∧
    dom (node g') = dom (node g) ∪ dom (node h) ∧
    ∀ n l, node g' !! n = Some l ↔
      node g !! n = Some l ∨ (node g !! n = None ∧ node h !! n = Some l).
Proof.
  intros Hg Hh Ht.
  pose proof (wf_consistent _ _ Hg) as Hgc. pose proof (wf_closed _ _ Hg) as Hgl.
  pose proof (wf_consistent _ _ Hh) as Hhc. pose proof (wf_closed _ _ Hh) as Hhl.
  destruct (left_full_merge_origin σ g h Hhc Hhl Hgc Hgl)
    as (σ' & g' & Heq & _ & _ & (_ & Hsubg & _) & _ & Hno).
  destruct (left_full_merge_spec σ g h Hhc Hhl Hgc Hgl)
    as (σ2 & g2 & Heq2 & _ & _ & _ & Hsubh & _).
  rewrite Heq in Heq2. injection Heq2 as <- <-. simpl in *.
  exists σ', g'. split; [done|].
  assert (∀ n l, node g' !! n = Some l ↔
            node g !! n = Some l ∨ (node g !! n = None ∧ node h !! n = Some l))
    as Hnodes.
  { intros n l. split.
    - intros Hl.
      destruct (Hno n l Hl) as [?|(? & [?|(Hnone & _ & _ & u & k & d & Hd)])];
        [by left|by right|].
      apply (proj1 (targets_are_nodes_spec h) Ht) in Hd.
      by apply not_elem_of_dom in Hnone.
    - intros [Hl|[Hnone Hl]]; [by apply (lookup_weaken (node g))|].
      assert (is_Some (node g' !! n)) as [l' Hl'].
      { apply elem_of_dom, Hsubh, elem_of_dom. eauto. }
      destruct (Hno n l' Hl') as [?|(_ & [?|(? & _)])]; congruence. }
  split; [|done]. apply set_eq. intros n.
  rewrite elem_of_union, !elem_of_dom. unfold is_Some. split.
  - intros [l [?|[_ ?]]%Hnodes]; eauto.
  - destruct (node g !! n) as [l0|] eqn:Hg0.
    + intros _. exists l0. apply Hnodes. by left.
    + intros [[? [=]]|[l Hl]]. exists l. apply Hnodes. by right.
Qed.

(** X3. A node that only [h] had shares its attribute dictionary with [h]
    after [left_full_merge(g, h)]: a label then set through [g] is the
    label that [h] reports for the node. *)
Theorem left_full_merge_shares_node_attributes (LABEL : string) σ g h n l :
  wf σ g = true → wf σ h = true →
  node g !! n = None → node h !! n = Some l →
  ∃ σ' g', left_full_merge σ g h = Ok (σ', g') ∧
    node g' !! n = Some l ∧
    ∀ label, ∃ σ'',
      set_node_label LABEL n label (σ', g') = Ok (σ'', g') ∧
      get_node_label LABEL σ'' h n = Ok label.
Proof.
  intros Hg Hh Hnone Hl.
  pose proof (wf_consistent _ _ Hg) as Hgc. pose proof (wf_closed _ _ Hg) as Hgl.
  pose proof (wf_consistent _ _ Hh) as Hhc. pose proof (wf_closed _ _ Hh) as Hhl.
  destruct (left_full_merge_origin σ g h Hhc Hhl Hgc Hgl)
    as (σ' & g' & Heq & _ & Hcl' & _ & _ & Hno).
  destruct (left_full_merge_spec σ g h Hhc Hhl Hgc Hgl)
    as (σ2 & g2 & Heq2 & _ & _ & _ & Hsubh & _).
  rewrite Heq in Heq2. injection Heq2 as <- <-. simpl in *.
  exists σ', g'. split; [done|].
  assert (node g' !! n = Some l) as Hl'.
  { assert (is_Some (node g' !! n)) as [l' Hl'].
    { apply elem_of_dom, Hsubh, elem_of_dom. eauto. }
    destruct (Hno n l' Hl') as [?|(_ & [?|(? & _)])]; congruence. }
  split; [done|]. intros label.
  unfold set_node_label, get_node_label, getitem. simpl. rewrite Hl', Hl. simpl.
  eexists. split; [done|]. f_equal. unfold dict_get, deref.
  rewrite list_lookup_insert_eq.
  - simpl. by rewrite lookup_insert_eq.
  - destruct Hcl' as [Hcn _]. by apply (Hcn n).
Qed.

(** X4. [left_full_merge(g, h)] keeps both graphs well-formed: afterwards
    [g] has an adjacency entry exactly for its nodes, and every dictionary
    that [g] or [h] refers to exists. *)
Theorem left_full_merge_keeps_wf σ g h :
  wf σ g = true → wf σ h = true →
  ∃ σ' g', left_full_merge σ g h = Ok (σ', g') ∧
    wf σ' g' = true ∧ wf σ' h = true.
Proof.
  intros Hg Hh.
  pose proof (wf_consistent _ _ Hg) as Hgc. pose proof (wf_closed _ _ Hg) as Hgl.
  pose proof (wf_consistent _ _ Hh) as Hhc. pose proof (wf_closed _ _ Hh) as Hhl.
  destruct (left_full_merge_spec σ g h Hhc Hhl Hgc Hgl)
    as (σ' & g' & Heq & Hc' & Hcl' & (Hp & _) & _).
  exists σ', g'. split_and!; [done|by apply wf_intro|].
  apply wf_intro; [done|]. by apply (closed_prefix σ).
Qed.

(** X5. [left_full_merge(g, h)] takes nothing but nodes and edges from
    [h]: the graph attributes of [g] (document metadata, namespace and
    annotation registries, version), its warning log and its
    [has_singleton_terms] flag are as before. *)
Theorem left_full_merge_keeps_metadata σ g h :
  wf σ g = true → wf σ h = true →
  ∃ σ' g', left_full_merge σ g h = Ok (σ', g') ∧
    graph g' = graph g ∧ warnings g' = warnings g ∧
    has_singleton_terms g' = has_singleton_terms g.
Proof.
  intros Hg Hh.
  destruct (left_full_merge_spec σ g h (wf_consistent _ _ Hh)
              (wf_closed _ _ Hh) (wf_consistent _ _ Hg) (wf_closed _ _ Hg))
    as (σ' & g' & Heq & _ & _ & (_ & _ & _ & ? & ? & ?) & _).
  by exists σ', g'.
Qed.

(** X6. When every node of [h] is a node of [g] and every edge of [h] is
    an edge of [g] with the same key and data dictionary (as for [h = g]),
    [left_full_merge(g, h)] changes nothing. *)
Theorem left_full_merge_subgraph σ g h :
  wf σ g = true → wf σ h = true → subgraph_of h g = true →
  left_full_merge σ g h = Ok (σ, g).
Proof.
  intros Hg Hh [Hsub Hedges]%subgraph_of_spec.
  pose proof (wf_closed _ _ Hg) as [_ Hce].
  apply (left_full_merge_again σ h (wf_closed _ _ Hh));
    [by apply (wf_consistent σ)|done|done|].
  intros u v k d Hd. exists k, d. simpl.
  split_and!; [by apply Hedges|by apply (Hce u v k), Hedges|].
  case_bool_decide; [done|]. split; [lia|done].
Qed.

(** X13. [left_full_merge(g, h)] adds no duplicate of a qualified edge:
    afterwards two qualified edges of [g] between the same nodes have
    equal attributes only if both were edges of [g] before the call. *)
Theorem left_full_merge_no_duplicates σ g h :
  wf σ g = true → wf σ h = true →
  ∃ σ' g', left_full_merge σ g h = Ok (σ', g') ∧
    ∀ u v k1 l1 k2 l2,
      edge g' u v k1 = Some l1 → edge g' u v k2 = Some l2 →
      (0 ≤ k1)%Z → (0 ≤ k2)%Z → k1 ≠ k2 →
      deref σ' l1 = deref σ' l2 →
      edge g u v k1 = Some l1 ∧ edge g u v k2 = Some l2.
Proof.
  intros Hg Hh.
  destruct (left_full_merge_dedup σ g h (wf_consistent _ _ Hh)
              (wf_closed _ _ Hh) (wf_consistent _ _ Hg) (wf_closed _ _ Hg))
    as (σ' & g' & Heq & Hd).
  exists σ', g'. split; [done|]. apply Hd.
Qed.

(** ** Nodes and edges added one at a time *)

Lemma dict_get_empty (attribute : string) : dict_get ∅ attribute = VNone.
Proof. unfold dict_get. by rewrite lookup_empty. Qed.

(** X7. [add_unqualified_edge(u, v, r)] keeps the graph well-formed and
    its edges ending in nodes, keeps every node, edge and dictionary there
    was, and makes [u] and [v] nodes and no other; an endpoint that was no
    node before gets an empty attribute dictionary, so that its name,
    label and description are [None]. *)
Theorem add_unqualified_edge_endpoints (RELATION ANNOTATIONS : string)
    (NAME LABEL DESCRIPTION : string) (unqualified_edge_code : gmap string Z)
    σ g u v (r : string) k :
  wf σ g = true → targets_are_nodes g = true →
  unqualified_edge_code !! r = Some k →
  ∃ σ' g',
    add_unqualified_edge RELATION ANNOTATIONS unqualified_edge_code u v r (σ, g)
      = Ok (σ', g') ∧
    wf σ' g' = true ∧ targets_are_nodes g' = true ∧
    (∀ n l, node g !! n = Some l → node g' !! n = Some l) ∧
    (∀ u1 v1 k1 l, edge g u1 v1 k1 = Some l → edge g' u1 v1 k1 = Some l) ∧
    (∀ l, l < length σ → σ' !! l = σ !! l) ∧
    dom (node g') = dom (node g) ∪ {[u; v]} ∧
    (∀ n, n ∉ dom (node g) → n ∈ dom (node g') →
       get_node_name NAME σ' g' n = Ok VNone ∧
       get_node_label LABEL σ' g' n = Ok VNone ∧
       get_node_description DESCRIPTION σ' g' n = Ok VNone).
Proof.
  intros Hg Ht Hk.
  pose proof (wf_consistent _ _ Hg) as Hgc. pose proof (wf_closed _ _ Hg) as Hgl.
  pose proof (proj1 (targets_are_nodes_spec g) Ht) as Htg.
  unfold add_unqualified_edge, getitem. rewrite Hk. simpl.
  rewrite has_edge_key. case_bool_decide as Hedge; simpl.
  - destruct Hedge as [l Hl]. exists σ, g. split_and!; try done.
    + assert (u ∈ dom (node g)).
      { rewrite Hgc. apply edge_Some in Hl as (? & ? & Hu & _).
        by apply elem_of_dom. }
      pose proof (Htg u v k l Hl). set_solver.
  - destruct (add_edge_new σ g u v (Some k) None
                (<[ANNOTATIONS := VDict ∅]> (<[RELATION := VStr r]> ∅))
                Hgc Hgl I)
      as (σ' & g' & k' & l' & -> & Hc' & Hcl' & (Hp & Hn & He' & _) & _ & He
            & _ & _ & _ & -> & Hdom & Hnodes).
    { intros k1 [= <-]. destruct (edge g u v k) eqn:Hl; [|done].
      destruct Hedge. eauto. }
    simpl in *. exists σ', g'. split_and!; try done.
    + by apply wf_intro.
    + apply targets_are_nodes_spec. intros u1 v1 k1 l1. rewrite He.
      case_decide as Heq.
      * destruct Heq as (-> & -> & ->). intros _. rewrite Hdom. set_solver.
      * intros Hl%Htg. rewrite Hdom. set_solver.
    + intros n l Hl. by apply (lookup_weaken (node g)).
    + intros l Hl. destruct Hp as [τ ->]. by apply lookup_app_l.
    + intros n Hn0 [l Hl]%elem_of_dom.
      destruct (Hnodes n l Hl) as [Hold|(_ & _ & _ & Hempty)].
      { destruct Hn0. apply elem_of_dom. eauto. }
      unfold get_node_name, get_node_label, get_node_description, getitem.
      rewrite Hl. simpl. by rewrite Hempty, !dict_get_empty.
Qed.

(** X8. An unqualified edge just added has the annotations [{}] and has
    neither citation nor evidence: [get_edge_annotations] returns the empty
    dictionary, [get_edge_citation] and [get_edge_evidence] raise
    [KeyError]. *)
Theorem add_unqualified_edge_attributes (RELATION ANNOTATIONS : string)
    (CITATION EVIDENCE : string) (unqualified_edge_code : gmap string Z)
    σ g u v (r : string) k :
  wf σ g = true → unqualified_edge_code !! r = Some k →
  edge g u v k = None →
  CITATION ∉ [RELATION; ANNOTATIONS] → EVIDENCE ∉ [RELATION; ANNOTATIONS] →
  ∃ σ' g',
    add_unqualified_edge RELATION ANNOTATIONS unqualified_edge_code u v r (σ, g)
      = Ok (σ', g') ∧
    get_edge_annotations ANNOTATIONS σ' g' u v k = Ok (VDict ∅) ∧
    get_edge_citation CITATION σ' g' u v k = Raise KeyError ∧
    get_edge_evidence EVIDENCE σ' g' u v k = Raise KeyError.
Proof.
  intros Hg Hk Hnone Hcit Hev.
  pose proof (wf_consistent _ _ Hg) as Hgc. pose proof (wf_closed _ _ Hg) as Hgl.
  apply not_elem_of_cons in Hcit as [? [? _]%not_elem_of_cons].
  apply not_elem_of_cons in Hev as [? [? _]%not_elem_of_cons].
  unfold add_unqualified_edge, getitem. rewrite Hk. simpl.
  rewrite has_edge_key, bool_decide_eq_false_2 by
    (rewrite Hnone; by intros [? ?]).
  simpl.
  destruct (add_edge_new σ g u v (Some k) None
              (<[ANNOTATIONS := VDict ∅]> (<[RELATION := VStr r]> ∅))
              Hgc Hgl I)
    as (σ' & g' & k' & l' & -> & _ & _ & _ & _ & He & _ & _ & Hcont & -> & _).
  { by intros ? [= <-]. }
  exists σ', g'. split; [done|].
  unfold get_edge_annotations, get_edge_citation, get_edge_evidence.
  rewrite edge_data_edge, He, decide_True by done. simpl.
  unfold getitem. rewrite Hcont.
  rewrite lookup_insert_eq, !lookup_insert_ne, !lookup_empty by done. done.
Qed.

(** X9. [add_simple_node(function, namespace, name)] for a key that is
    no node yet keeps the graph well-formed, keeps every node with its
    dictionary and leaves the edges as they are; the new node is the only
    one added, [get_node_name] returns [name] for it and its label and
    description are [None]. *)
Theorem add_simple_node_attributes (FUNCTION NAMESPACE NAME : string)
    (LABEL DESCRIPTION : string) (tuple3 : string → string → string → N)
    σ g (function namespace name : string) :
  wf σ g = true →
  node g !! tuple3 function namespace name = None →
  LABEL ∉ [FUNCTION; NAMESPACE; NAME] →
  DESCRIPTION ∉ [FUNCTION; NAMESPACE; NAME] →
  ∃ σ' g',
    add_simple_node FUNCTION NAMESPACE NAME tuple3 function namespace name
      (σ, g) = Ok (σ', g') ∧
    wf σ' g' = true ∧
    (∀ n l, node g !! n = Some l → node g' !! n = Some l) ∧
    dom (node g') = {[tuple3 function namespace name]} ∪ dom (node g) ∧
    (∀ u v k, edge g' u v k = edge g u v k) ∧
    (∀ l, l < length σ → σ' !! l = σ !! l) ∧
    get_node_name NAME σ' g' (tuple3 function namespace name)
      = Ok (VStr name) ∧
    get_node_label LABEL σ' g' (tuple3 function namespace name) = Ok VNone ∧
    get_node_description DESCRIPTION σ' g' (tuple3 function namespace name)
      = Ok VNone.
Proof.
  intros Hg Hnone Hlab Hdesc. set (n := tuple3 function namespace name) in *.
  pose proof (wf_consistent _ _ Hg) as Hgc. pose proof (wf_closed _ _ Hg) as Hgl.
  apply not_elem_of_cons in Hlab as [? [? [? _]%not_elem_of_cons
    ]%not_elem_of_cons].
  apply not_elem_of_cons in Hdesc as [? [? [? _]%not_elem_of_cons
    ]%not_elem_of_cons].
  unfold add_simple_node, contains. fold n. simpl.
  rewrite bool_decide_eq_false_2 by (by apply not_elem_of_dom). simpl.
  destruct (add_node_new σ g n None
              (<[NAME := VStr name]>
                 (<[NAMESPACE := VStr namespace]>
                    (<[FUNCTION := VStr function]> ∅))) Hgc Hgl I Hnone)
    as (σ' & g' & a & -> & Hc' & Hcl' & (_ & Hsub & _) & Hn' & _ & He
          & -> & ->).
  simpl in *. eexists _, g'. split; [done|]. split_and!; try done.
  - by apply wf_intro.
  - intros m l Hl. by apply (lookup_weaken (node g)).
  - rewrite Hn'. by rewrite dom_insert_L.
  - intros l Hl. by apply lookup_app_l.
  - unfold get_node_name, getitem. rewrite Hn', lookup_insert_eq. simpl.
    rewrite deref_alloc. unfold dict_get. by rewrite lookup_insert_eq.
  - unfold get_node_label, getitem. rewrite Hn', lookup_insert_eq. simpl.
    rewrite deref_alloc. unfold dict_get.
    by rewrite !lookup_insert_ne, lookup_empty by done.
  - unfold get_node_description, getitem. rewrite Hn', lookup_insert_eq. simpl.
    rewrite deref_alloc. unfold dict_get.
    by rewrite !lookup_insert_ne, lookup_empty by done.
Qed.

(** ** Labels and descriptions *)

Lemma wf_insert σ g l (x : attrs) : wf σ g = true → wf (<[l := x]> σ) g = true.
Proof. unfold wf. by rewrite length_insert. Qed.

(** X10. For a node of the graph, [set_node_label] returns and
    [get_node_label] then returns the label that was set; the graph stays
    well-formed, the other attributes of the node and all other
    dictionaries are as before.  For a key that is no node both raise
    [KeyError]. *)
Theorem set_node_label_get (LABEL : string) σ g n (label : value) :
  wf σ g = true →
  match node g !! n with
  | Some l =>
      ∃ σ', set_node_label LABEL n label (σ, g) = Ok (σ', g) ∧
        get_node_label LABEL σ' g n = Ok label ∧
        wf σ' g = true ∧
        (∀ l', l' ≠ l → σ' !! l' = σ !! l') ∧
        (∀ attribute : string, attribute ≠ LABEL →
           deref σ' l !! attribute = deref σ l !! attribute)
  | None =>
      set_node_label LABEL n label (σ, g) = Raise KeyError ∧
      get_node_label LABEL σ g n = Raise KeyError
  end.
Proof.
  intros Hg. unfold set_node_label, get_node_label, getitem. simpl.
  destruct (node g !! n) as [l|] eqn:Hl; simpl; [|done].
  assert (l < length σ) as Hlen.
  { destruct (wf_closed _ _ Hg) as [Hcn _]. by apply (Hcn n). }
  eexists. split; [done|]. split_and!.
  - unfold dict_get, deref. rewrite list_lookup_insert_eq by done. simpl.
    by rewrite lookup_insert_eq.
  - by apply wf_insert.
  - intros l' Hne. by rewrite list_lookup_insert_ne.
  - intros attribute Hne. unfold deref at 1.
    rewrite list_lookup_insert_eq by done. simpl.
    by rewrite lookup_insert_ne.
Qed.

(** X11. For a node of the graph, [set_node_description] returns and
    [get_node_description] then returns the description that was set,
    while the name and the label of the node are as before; and setting
    the label and the description in either order leaves the same
    store. *)
Theorem set_node_description_get (NAME LABEL DESCRIPTION : string) σ g n l
    (label description : value) :
  wf σ g = true → node g !! n = Some l →
  DESCRIPTION ∉ [NAME; LABEL] →
  ∃ σ', set_node_description DESCRIPTION n description (σ, g) = Ok (σ', g) ∧
    get_node_description DESCRIPTION σ' g n = Ok description ∧
    get_node_label LABEL σ' g n = get_node_label LABEL σ g n ∧
    get_node_name NAME σ' g n = get_node_name NAME σ g n ∧
    wf σ' g = true ∧
    (s ← set_node_label LABEL n label (σ, g);
     set_node_description DESCRIPTION n description s) =
    (s ← set_node_description DESCRIPTION n description (σ, g);
     set_node_label LABEL n label s).
Proof.
  intros Hg Hl Hne.
  apply not_elem_of_cons in Hne as [? [? _]%not_elem_of_cons].
  assert (l < length σ) as Hlen.
  { destruct (wf_closed _ _ Hg) as [Hcn _]. by apply (Hcn n). }
  unfold set_node_description, set_node_label, get_node_description,
    get_node_label, get_node_name, getitem. simpl. rewrite Hl. simpl.
  eexists. split; [done|]. rewrite Hl. simpl.
  unfold dict_get, deref. rewrite !list_lookup_insert_eq by
    (by rewrite ?length_insert).
  simpl. rewrite lookup_insert_eq, !lookup_insert_ne by done.
  split_and!; [done..|by apply wf_insert|].
  do 2 f_equal. rewrite !list_insert_insert_eq. f_equal.
  by apply insert_insert_ne.
Qed.

(** ** Construction *)

Lemma init_key_dom (key : string) (x : value) g :
  dom (graph (init_key key x g)) = {[key]} ∪ dom (graph g).
Proof.
  unfold init_key. destruct (graph g !! key) eqn:Hk; simpl.
  - assert (key ∈ dom (graph g)) by (apply elem_of_dom; eauto). set_solver.
  - by rewrite dom_insert_L.
Qed.

Lemma init_key_subseteq (key : string) (x : value) g :
  graph g ⊆ graph (init_key key x g).
Proof.
  unfold init_key. destruct (graph g !! key) eqn:Hk; simpl; [done|].
  by apply insert_subseteq.
Qed.

Lemma init_key_shape (key : string) (x : value) g :
  node (init_key key x g) = node g ∧ adj (init_key key x g) = adj g.
Proof. unfold init_key. by destruct (graph g !! key). Qed.

(** X12. The constructor keeps every graph attribute passed as a keyword:
    an entry of [kwargs] is never replaced by a default, the attributes
    afterwards are those of [kwargs] and the nine keys the constructor
    sets, and the graph has no node, no edge and no warning. *)
Theorem BELGraph_init_keeps_kwargs
    (GRAPH_METADATA GRAPH_PYBEL_VERSION : string)
    (GRAPH_NAMESPACE_URL GRAPH_NAMESPACE_OWL GRAPH_NAMESPACE_PATTERN : string)
    (GRAPH_ANNOTATION_URL GRAPH_ANNOTATION_OWL GRAPH_ANNOTATION_PATTERN : string)
    (GRAPH_ANNOTATION_LIST get_version : string) (kwargs : gmap string value) :
  let g : BELGraph (N:=N) (Exc:=Exc) :=
    BELGraph_init GRAPH_METADATA GRAPH_PYBEL_VERSION GRAPH_NAMESPACE_URL
      GRAPH_NAMESPACE_OWL GRAPH_NAMESPACE_PATTERN GRAPH_ANNOTATION_URL
      GRAPH_ANNOTATION_OWL GRAPH_ANNOTATION_PATTERN GRAPH_ANNOTATION_LIST
      get_version kwargs in
  kwargs ⊆ graph g ∧
  dom (graph g) =
    dom kwargs ∪
    list_to_set
      [GRAPH_METADATA; GRAPH_PYBEL_VERSION; GRAPH_NAMESPACE_URL;
       GRAPH_NAMESPACE_OWL; GRAPH_NAMESPACE_PATTERN; GRAPH_ANNOTATION_URL;
       GRAPH_ANNOTATION_OWL; GRAPH_ANNOTATION_PATTERN;
       GRAPH_ANNOTATION_LIST] ∧
  node g = ∅ ∧ adj g = ∅ ∧ warnings g = [] ∧
  has_singleton_terms g = false ∧
  ∀ σ (query : attrs),
    nodes_iter σ g false query = [] ∧
    edges_iter σ g None true true query = [].
Proof.
  intros g. subst g. unfold BELGraph_init. cbn [graph node adj warnings
    has_singleton_terms].
  split_and!.
  - repeat (etrans; [|apply init_key_subseteq]). unfold set_warnings.
    cbn [graph]. by rewrite (right_id_L ∅ (∪)).
  - rewrite !init_key_dom. unfold set_warnings. cbn [graph].
    rewrite (right_id_L ∅ (∪)). cbn [list_to_set foldr]. set_solver.
  - by rewrite !(proj1 (init_key_shape _ _ _)).
  - by rewrite !(proj2 (init_key_shape _ _ _)).
  - by rewrite !init_key_warnings.
  - done.
  - intros σ query. unfold nodes_iter, edges_iter, nx_nodes_iter, nx_edges_iter.
    cbn [node adj]. rewrite !(proj1 (init_key_shape _ _ _)),
      !(proj2 (init_key_shape _ _ _)). unfold set_warnings. cbn [node adj].
    by rewrite !map_to_list_empty.
Qed.

End graph_more.

(** * The theorems at the example graphs *)

Lemma left_full_merge_result_witness :
  wf ex_σ ex_g = true ∧ wf ex_σ ex_h = true ∧
  ∃ σ' g', left_full_merge ex_σ ex_g ex_h = Ok (σ', g') ∧
    (∀ n, n ∈ dom (node ex_h) → n ∈ dom (node g')) ∧
    (∀ l, l < length ex_σ → σ' !! l = ex_σ !! l).
Proof.
  assert (wf ex_σ ex_g = true) as Hg by (vm_compute; reflexivity).
  assert (wf ex_σ ex_h = true) as Hh by (vm_compute; reflexivity).
  split; [exact Hg|]. split; [exact Hh|].
  destruct (left_full_merge_result ex_σ ex_g ex_h Hg Hh)
    as (σ' & g' & Heq & Hn & _ & _ & _ & _ & Hσ & _).
  exists σ', g'. split; [exact Heq|]. split; [exact Hn|exact Hσ].
Defined.

Lemma ex_run_Ok (r : result (heap * ex_graph)) :
  is_Ok r = true → r = Ok ((ex_run r).1, (ex_run r).2).
Proof. destruct r as [[σ g]|e]; [done|discriminate]. Qed.

(** C1 as stated fails: the donor's [hasComponent] edge carries evidence,
    the receiver has an edge with the same key without it, and after the
    merge no edge of the receiver between the two nodes has the donor's
    attributes. *)
Lemma left_full_merge_unqualified_counterexample :
  wf ex_σ ex_g = true ∧ wf ex_σ ex_h = true ∧
  ∃ σ' g' d,
    left_full_merge ex_σ ex_g ex_h = Ok (σ', g') ∧
    edge ex_h ex_u ex_v (-1)%Z = Some d ∧
    ¬ ∃ k' l', edge g' ex_u ex_v k' = Some l' ∧ deref σ' l' = deref ex_σ d.
Proof.
  split; [vm_compute; reflexivity|]. split; [vm_compute; reflexivity|].
  exists ex_merged.1, ex_merged.2, 7. split_and!.
  - apply (ex_run_Ok (left_full_merge ex_σ ex_g ex_h)).
    vm_compute. reflexivity.
  - vm_compute. reflexivity.
  - intros (k' & l' & Hl' & Hd).
    apply elem_of_nx_edges_iter, list_elem_of_In in Hl'.
    assert (forallb
              (λ e : ex_node * ex_node * Z * loc,
                 negb (bool_decide (e.1.1.1 = ex_u ∧ e.1.1.2 = ex_v ∧
                                    deref ex_merged.1 e.2 = deref ex_σ 7)))
              (nx_edges_iter ex_merged.2 None) = true) as Hall
      by (vm_compute; reflexivity).
    rewrite forallb_forall in Hall. apply Hall in Hl'.
    apply negb_true_iff, bool_decide_eq_false in Hl'.
    apply Hl'. split; [reflexivity|]. split; [reflexivity|exact Hd].
Qed.

Lemma left_full_merge_twice_witness :
  wf ex_σ ex_g = true ∧ wf ex_σ ex_h = true ∧
  ∃ σ1 g1, left_full_merge ex_σ ex_g ex_h = Ok (σ1, g1) ∧
    left_full_merge σ1 g1 ex_h = Ok (σ1, g1).
Proof.
  assert (wf ex_σ ex_g = true) as Hg by (vm_compute; reflexivity).
  assert (wf ex_σ ex_h = true) as Hh by (vm_compute; reflexivity).
  split; [exact Hg|]. split; [exact Hh|].
  exact (left_full_merge_twice ex_σ ex_g ex_h Hg Hh).
Defined.

Lemma left_full_merge_node_conflict_witness :
  wf ex_σ ex_g = true ∧ wf ex_σ ex_h = true ∧
  node ex_g !! ex_u = Some 0 ∧ node ex_h !! ex_u = Some 5 ∧
  deref ex_σ 0 ≠ deref ex_σ 5 ∧
  ∃ σ' g', left_full_merge ex_σ ex_g ex_h = Ok (σ', g') ∧
    node g' !! ex_u = Some 0 ∧
    deref σ' 0 = deref ex_σ 0 ∧
    deref σ' 0 ≠ deref σ' 5 ∧
    warnings g' = warnings ex_g.
Proof.
  assert (wf ex_σ ex_g = true) as Hg by (vm_compute; reflexivity).
  assert (wf ex_σ ex_h = true) as Hh by (vm_compute; reflexivity).
  assert (node ex_g !! ex_u = Some 0) as Hlg by (vm_compute; reflexivity).
  assert (node ex_h !! ex_u = Some 5) as Hlh by (vm_compute; reflexivity).
  assert (deref ex_σ 0 ≠ deref ex_σ 5) as Hne.
  { apply (bool_decide_eq_false_1 (deref ex_σ 0 = deref ex_σ 5)).
    vm_compute. reflexivity. }
  split; [exact Hg|]. split; [exact Hh|]. split; [exact Hlg|].
  split; [exact Hlh|]. split; [exact Hne|].
  exact (left_full_merge_node_conflict ex_σ ex_g ex_h ex_u 0 5
           Hg Hh Hlg Hlh Hne).
Defined.

Lemma add_unqualified_edge_unique_witness :
  wf [] ex_empty = true ∧ ex_code !! "hasComponent" = Some (-1)%Z ∧
  ∃ σ1 g1 l,
    add_unqualified_edge "relation" "annotations" ex_code ex_u ex_v
      "hasComponent" ([], ex_empty) = Ok (σ1, g1) ∧
    edges_keyed g1 ex_u ex_v (-1)%Z = [(ex_u, ex_v, (-1)%Z, l)] ∧
    add_unqualified_edge "relation" "annotations" ex_code ex_u ex_v
      "hasComponent" (σ1, g1) = Ok (σ1, g1).
Proof.
  assert (wf [] ex_empty = true) as Hg by (vm_compute; reflexivity).
  assert (ex_code !! "hasComponent" = Some (-1)%Z) as Hk
    by (vm_compute; reflexivity).
  split; [exact Hg|]. split; [exact Hk|].
  destruct (add_unqualified_edge_unique "relation" "annotations" ex_code
              [] ex_empty ex_u ex_v "hasComponent" (-1)%Z Hg Hk)
    as (σ1 & g1 & l & H1 & H2 & _ & _ & H3 & _).
  exists σ1, g1, l. split; [exact H1|]. split; [exact H2|exact H3].
Defined.

Lemma add_simple_node_idempotent_witness :
  wf [] ex_empty = true ∧
  ∃ σ1 g1 l,
    add_simple_node "function" "namespace" "name" ex_tuple3
      "Protein" "HGNC" "AKT1" ([], ex_empty) = Ok (σ1, g1) ∧
    node g1 !! ex_u = Some l ∧
    add_simple_node "function" "namespace" "name" ex_tuple3
      "Protein" "HGNC" "AKT1" (σ1, g1) = Ok (σ1, g1).
Proof.
  assert (wf [] ex_empty = true) as Hg by (vm_compute; reflexivity).
  split; [exact Hg|].
  destruct (add_simple_node_idempotent "function" "namespace" "name"
              "label" "description" ex_tuple3 [] ex_empty
              "Protein" "HGNC" "AKT1" Hg)
    as (σ1 & g1 & l & H1 & H2 & _ & _ & _ & H3 & _).
  exists σ1, g1, l. split; [exact H1|]. split; [exact H2|exact H3].
Defined.

Lemma get_edge_attributes_witness :
  edge ex_h ex_u ex_v 0%Z = None ∧
  get_edge_evidence "evidence" ex_σ ex_h ex_u ex_v 0%Z = Raise KeyError ∧
  edge ex_h ex_u ex_v 1%Z = Some 9 ∧
  deref ex_σ 9 !! "evidence" = Some (VStr "PMID 9611787") ∧
  get_edge_evidence "evidence" ex_σ ex_h ex_u ex_v 1%Z
    = Ok (VStr "PMID 9611787").
Proof.
  assert (edge ex_h ex_u ex_v 0%Z = None) as H0 by (vm_compute; reflexivity).
  assert (edge ex_h ex_u ex_v 1%Z = Some 9) as H1 by (vm_compute; reflexivity).
  assert (deref ex_σ 9 !! "evidence" = Some (VStr "PMID 9611787")) as H2
    by (vm_compute; reflexivity).
  split; [exact H0|].
  split.
  { exact (proj1 (proj2 (proj1 (get_edge_attributes "citation" "evidence"
             "annotations" ex_σ ex_h ex_u ex_v 0%Z) H0))). }
  split; [exact H1|]. split; [exact H2|].
  exact (proj1 (proj2 (proj2 (get_edge_attributes "citation" "evidence"
           "annotations" ex_σ ex_h ex_u ex_v 1%Z) 9 _ H1)) H2).
Defined.

Lemma BELGraph_init_registries_witness :
  ("pybel_version" ∉
     ["namespace_url"; "namespace_owl"; "namespace_pattern"; "annotation_url";
      "annotation_owl"; "annotation_pattern"; "annotation_list"]) ∧
  document "document_metadata" ex_empty = Ok (VDict ∅) ∧
  annotation_list "annotation_list" ex_empty = Ok (VDict ∅) ∧
  warnings ex_empty = [].
Proof.
  assert ("pybel_version" ∉
    ["namespace_url"; "namespace_owl"; "namespace_pattern"; "annotation_url";
     "annotation_owl"; "annotation_pattern"; "annotation_list"]) as Hv.
  { apply (bool_decide_eq_false_1 _). vm_compute. reflexivity. }
  split; [exact Hv|].
  destruct (BELGraph_init_registries (N:=ex_node) (Exc:=string)
              "document_metadata" "pybel_version" "namespace_url"
              "namespace_owl" "namespace_pattern" "annotation_url"
              "annotation_owl" "annotation_pattern" "annotation_list"
              "0.5.0" Hv)
    as (H1 & _ & _ & _ & _ & _ & _ & H8 & H9).
  split; [exact H1|]. split; [exact H8|exact H9].
Defined.

Lemma left_full_merge_edge_sources_witness :
  wf ex_σ ex_g = true ∧ wf ex_σ ex_h = true ∧
  ∃ σ' g', left_full_merge ex_σ ex_g ex_h = Ok (σ', g') ∧
    ∀ u v k l, edge g' u v k = Some l →
      edge ex_g u v k = Some l ∨
      (length ex_σ ≤ l ∧
       ∃ k0 d, edge ex_h u v k0 = Some d ∧ deref σ' l = deref ex_σ d ∧
         if bool_decide (k0 < 0)%Z then k = k0 else (0 ≤ k)%Z).
Proof.
  assert (wf ex_σ ex_g = true) as Hg by (vm_compute; reflexivity).
  assert (wf ex_σ ex_h = true) as Hh by (vm_compute; reflexivity).
  split; [exact Hg|]. split; [exact Hh|].
  exact (left_full_merge_edge_sources ex_σ ex_g ex_h Hg Hh).
Defined.

Lemma left_full_merge_nodes_witness :
  wf ex_σ ex_g = true ∧ wf ex_σ ex_h = true ∧
  targets_are_nodes ex_h = true ∧
  ∃ σ' g', left_full_merge ex_σ ex_g ex_h = Ok (σ', g') ∧
    dom (node g') = dom (node ex_g) ∪ dom (node ex_h) ∧
    ∀ n l, node g' !! n = Some l ↔
      node ex_g !! n = Some l ∨
      (node ex_g !! n = None ∧ node ex_h !! n = Some l).
Proof.
  assert (wf ex_σ ex_g = true) as Hg by (vm_compute; reflexivity).
  assert (wf ex_σ ex_h = true) as Hh by (vm_compute; reflexivity).
  assert (targets_are_nodes ex_h = true) as Ht by (vm_compute; reflexivity).
  split; [exact Hg|]. split; [exact Hh|]. split; [exact Ht|].
  exact (left_full_merge_nodes ex_σ ex_g ex_h Hg Hh Ht).
Defined.

Lemma left_full_merge_shares_node_attributes_witness :
  wf ex_σ ex_g = true ∧ wf ex_σ ex_h = true ∧
  node ex_g !! ex_w = None ∧ node ex_h !! ex_w = Some 10 ∧
  ∃ σ' g', left_full_merge ex_σ ex_g ex_h = Ok (σ', g') ∧
    node g' !! ex_w = Some 10 ∧
    ∀ label, ∃ σ'',
      set_node_label "label" ex_w label (σ', g') = Ok (σ'', g') ∧
      get_node_label "label" σ'' ex_h ex_w = Ok label.
Proof.
  assert (wf ex_σ ex_g = true) as Hg by (vm_compute; reflexivity).
  assert (wf ex_σ ex_h = true) as Hh by (vm_compute; reflexivity).
  assert (node ex_g !! ex_w = None) as Hn by (vm_compute; reflexivity).
  assert (node ex_h !! ex_w = Some 10) as Hl by (vm_compute; reflexivity).
  split; [exact Hg|]. split; [exact Hh|]. split; [exact Hn|].
  split; [exact Hl|].
  exact (left_full_merge_shares_node_attributes "label" ex_σ ex_g ex_h
           ex_w 10 Hg Hh Hn Hl).
Defined.

Lemma left_full_merge_keeps_wf_witness :
  wf ex_σ ex_g = true ∧ wf ex_σ ex_h = true ∧
  ∃ σ' g', left_full_merge ex_σ ex_g ex_h = Ok (σ', g') ∧
    wf σ' g' = true ∧ wf σ' ex_h = true.
Proof.
  assert (wf ex_σ ex_g = true) as Hg by (vm_compute; reflexivity).
  assert (wf ex_σ ex_h = true) as Hh by (vm_compute; reflexivity).
  split; [exact Hg|]. split; [exact Hh|].
  exact (left_full_merge_keeps_wf ex_σ ex_g ex_h Hg Hh).
Defined.

Lemma left_full_merge_keeps_metadata_witness :
  wf ex_σ ex_g = true ∧ wf ex_σ ex_h = true ∧
  ∃ σ' g', left_full_merge ex_σ ex_g ex_h = Ok (σ', g') ∧
    graph g' = graph ex_g ∧ warnings g' = warnings ex_g ∧
    has_singleton_terms g' = has_singleton_terms ex_g.
Proof.
  assert (wf ex_σ ex_g = true) as Hg by (vm_compute; reflexivity).
  assert (wf ex_σ ex_h = true) as Hh by (vm_compute; reflexivity).
  split; [exact Hg|]. split; [exact Hh|].
  exact (left_full_merge_keeps_metadata ex_σ ex_g ex_h Hg Hh).
Defined.

Lemma left_full_merge_no_duplicates_witness :
  wf ex_σ ex_g = true ∧ wf ex_σ ex_h = true ∧
  ∃ σ' g', left_full_merge ex_σ ex_g ex_h = Ok (σ', g') ∧
    ∀ u v k1 l1 k2 l2,
      edge g' u v k1 = Some l1 → edge g' u v k2 = Some l2 →
      (0 ≤ k1)%Z → (0 ≤ k2)%Z → k1 ≠ k2 →
      deref σ' l1 = deref σ' l2 →
      edge ex_g u v k1 = Some l1 ∧ edge ex_g u v k2 = Some l2.
Proof.
  assert (wf ex_σ ex_g = true) as Hg by (vm_compute; reflexivity).
  assert (wf ex_σ ex_h = true) as Hh by (vm_compute; reflexivity).
  split; [exact Hg|]. split; [exact Hh|].
  exact (left_full_merge_no_duplicates ex_σ ex_g ex_h Hg Hh).
Defined.

(** Merging the first receiver into the merged graph changes nothing. *)
Lemma left_full_merge_subgraph_witness :
  wf ex_merged.1 ex_merged.2 = true ∧ wf ex_merged.1 ex_g = true ∧
  subgraph_of ex_g ex_merged.2 = true ∧
  left_full_merge ex_merged.1 ex_merged.2 ex_g
    = Ok (ex_merged.1, ex_merged.2).
Proof.
  assert (wf ex_merged.1 ex_merged.2 = true) as Hg
    by (vm_compute; reflexivity).
  assert (wf ex_merged.1 ex_g = true) as Hh by (vm_compute; reflexivity).
  assert (subgraph_of ex_g ex_merged.2 = true) as Hs
    by (vm_compute; reflexivity).
  split; [exact Hg|]. split; [exact Hh|]. split; [exact Hs|].
  exact (left_full_merge_subgraph ex_merged.1 ex_merged.2 ex_g Hg Hh Hs).
Defined.

Lemma add_unqualified_edge_endpoints_witness :
  wf [] ex_empty = true ∧ targets_are_nodes ex_empty = true ∧
  ex_code !! "hasComponent" = Some (-1)%Z ∧
  ∃ σ' g',
    add_unqualified_edge "relation" "annotations" ex_code ex_u ex_v
      "hasComponent" ([], ex_empty) = Ok (σ', g') ∧
    wf σ' g' = true ∧ targets_are_nodes g' = true ∧
    dom (node g') = dom (node ex_empty) ∪ {[ex_u; ex_v]}.
Proof.
  assert (wf [] ex_empty = true) as Hg by (vm_compute; reflexivity).
  assert (targets_are_nodes ex_empty = true) as Ht
    by (vm_compute; reflexivity).
  assert (ex_code !! "hasComponent" = Some (-1)%Z) as Hk
    by (vm_compute; reflexivity).
  split; [exact Hg|]. split; [exact Ht|]. split; [exact Hk|].
  destruct (add_unqualified_edge_endpoints "relation" "annotations"
              "name" "label" "description" ex_code [] ex_empty ex_u ex_v
              "hasComponent" (-1)%Z Hg Ht Hk)
    as (σ' & g' & H1 & H2 & H3 & _ & _ & _ & H4 & _).
  exists σ', g'. split; [exact H1|]. split; [exact H2|].
  split; [exact H3|exact H4].
Defined.

Lemma add_unqualified_edge_attributes_witness :
  wf [] ex_empty = true ∧ ex_code !! "hasComponent" = Some (-1)%Z ∧
  edge ex_empty ex_u ex_v (-1)%Z = None ∧
  ("citation" ∉ ["relation"; "annotations"]) ∧
  ("evidence" ∉ ["relation"; "annotations"]) ∧
  ∃ σ' g',
    add_unqualified_edge "relation" "annotations" ex_code ex_u ex_v
      "hasComponent" ([], ex_empty) = Ok (σ', g') ∧
    get_edge_annotations "annotations" σ' g' ex_u ex_v (-1)%Z
      = Ok (VDict ∅) ∧
    get_edge_citation "citation" σ' g' ex_u ex_v (-1)%Z = Raise KeyError ∧
    get_edge_evidence "evidence" σ' g' ex_u ex_v (-1)%Z = Raise KeyError.
Proof.
  assert (wf [] ex_empty = true) as Hg by (vm_compute; reflexivity).
  assert (ex_code !! "hasComponent" = Some (-1)%Z) as Hk
    by (vm_compute; reflexivity).
  assert (edge ex_empty ex_u ex_v (-1)%Z = None) as He
    by (vm_compute; reflexivity).
  assert ("citation" ∉ ["relation"; "annotations"]) as Hc.
  { apply (bool_decide_eq_false_1 _). vm_compute. reflexivity. }
  assert ("evidence" ∉ ["relation"; "annotations"]) as Hv.
  { apply (bool_decide_eq_false_1 _). vm_compute. reflexivity. }
  split; [exact Hg|]. split; [exact Hk|]. split; [exact He|].
  split; [exact Hc|]. split; [exact Hv|].
  exact (add_unqualified_edge_attributes "relation" "annotations" "citation"
           "evidence" ex_code [] ex_empty ex_u ex_v "hasComponent" (-1)%Z
           Hg Hk He Hc Hv).
Defined.

Lemma add_simple_node_attributes_witness :
  wf [] ex_empty = true ∧ node ex_empty !! ex_u = None ∧
  ("label" ∉ ["function"; "namespace"; "name"]) ∧
  ("description" ∉ ["function"; "namespace"; "name"]) ∧
  ∃ σ' g',
    add_simple_node "function" "namespace" "name" ex_tuple3
      "Protein" "HGNC" "AKT1" ([], ex_empty) = Ok (σ', g') ∧
    wf σ' g' = true ∧
    get_node_name "name" σ' g' ex_u = Ok (VStr "AKT1") ∧
    get_node_label "label" σ' g' ex_u = Ok VNone.
Proof.
  assert (wf [] ex_empty = true) as Hg by (vm_compute; reflexivity).
  assert (node ex_empty !! ex_u = None) as Hn by (vm_compute; reflexivity).
  assert ("label" ∉ ["function"; "namespace"; "name"]) as Hl.
  { apply (bool_decide_eq_false_1 _). vm_compute. reflexivity. }
  assert ("description" ∉ ["function"; "namespace"; "name"]) as Hd.
  { apply (bool_decide_eq_false_1 _). vm_compute. reflexivity. }
  split; [exact Hg|]. split; [exact Hn|]. split; [exact Hl|].
  split; [exact Hd|].
  destruct (add_simple_node_attributes "function" "namespace" "name"
              "label" "description" ex_tuple3 [] ex_empty
              "Protein" "HGNC" "AKT1" Hg Hn Hl Hd)
    as (σ' & g' & H1 & H2 & _ & _ & _ & _ & H3 & H4 & _).
  exists σ', g'. split; [exact H1|]. split; [exact H2|].
  split; [exact H3|exact H4].
Defined.

Lemma set_node_label_get_witness :
  wf ex_σ ex_g = true ∧ node ex_g !! ex_u = Some 0 ∧
  ∃ σ', set_node_label "label" ex_u (VStr "AKT1 kinase") (ex_σ, ex_g)
          = Ok (σ', ex_g) ∧
    get_node_label "label" σ' ex_g ex_u = Ok (VStr "AKT1 kinase").
Proof.
  assert (wf ex_σ ex_g = true) as Hg by (vm_compute; reflexivity).
  assert (node ex_g !! ex_u = Some 0) as Hn by (vm_compute; reflexivity).
  split; [exact Hg|]. split; [exact Hn|].
  pose proof (set_node_label_get "label" ex_σ ex_g ex_u
                (VStr "AKT1 kinase") Hg) as Hm.
  rewrite Hn in Hm. destruct Hm as (σ' & H1 & H2 & _).
  exists σ'. split; [exact H1|exact H2].
Defined.

Lemma set_node_description_get_witness :
  wf ex_σ ex_g = true ∧ node ex_g !! ex_u = Some 0 ∧
  ("description" ∉ ["name"; "label"]) ∧
  ∃ σ', set_node_description "description" ex_u (VStr "a kinase")
          (ex_σ, ex_g) = Ok (σ', ex_g) ∧
    get_node_description "description" σ' ex_g ex_u = Ok (VStr "a kinase") ∧
    get_node_name "name" σ' ex_g ex_u = get_node_name "name" ex_σ ex_g ex_u.
Proof.
  assert (wf ex_σ ex_g = true) as Hg by (vm_compute; reflexivity).
  assert (node ex_g !! ex_u = Some 0) as Hn by (vm_compute; reflexivity).
  assert ("description" ∉ ["name"; "label"]) as Hd.
  { apply (bool_decide_eq_false_1 _). vm_compute. reflexivity. }
  split; [exact Hg|]. split; [exact Hn|]. split; [exact Hd|].
  destruct (set_node_description_get "name" "label" "description" ex_σ ex_g
              ex_u 0 (VStr "AKT1 kinase") (VStr "a kinase") Hg Hn Hd)
    as (σ' & H1 & H2 & _ & H3 & _).
  exists σ'. split; [exact H1|]. split; [exact H2|exact H3].
Defined.
